(** * Gasless USDC remittance relay: admission gate and reconciliation loop

    A shallow embedding of the relayer ([relayTransaction] and its
    validators), of the in-memory database and of the workflow processor
    ([processTransactions] and its handlers), followed by the properties
    established about them.

    Conventions of the embedding:
    - a JavaScript [Map] is an insertion-ordered association list
      ([JsMap]): the workflow iterates over [Map.values()], whose order is
      the insertion order;
    - [PublicKey] values are their base58 text, so [equals] is string
      equality and [toBase58] is the identity;
    - [Buffer] values are lists of bytes;
    - the functions of [@solana/web3.js], [@solana/spl-token], [bs58] and
      the system clock are the fields of the class [Platform]; every
      definition and theorem holds for all of them;
    - an [async] method is a computation in the monad [M]: it threads the
      world (database, trace of calls, clock reads) and either returns or
      throws; a [try]/[catch] is [tryCatch];
    - the answers of the ledger node are the fields of a [Connection]
      value; every endpoint is queried at most once while one record is
      processed, so one [Connection] per processed record is the general
      case;
    - block heights are integers, amounts are naturals ([bigint]);
    - console output is left out, except the receipt, which is the
      settlement notification;
    - admissions and loop cycles run one after the other ([run]): a cycle
      ends before the next action starts. *)

From Stdlib Require Import String Ascii List Bool ZArith NArith Arith Lia.
From Stdlib.Strings Require Import Byte.
From Stdlib Require Import DecimalString.
Import ListNotations.
Local Open Scope string_scope.

(** ** JavaScript [Map] with string keys *)

Module JsMap.

Section Ops.
Context {V : Type}.

Definition t : Type := list (string * V).

Definition empty : t := [].

Fixpoint get (m : t) (k : string) : option V :=
  match m with
  | [] => None
  | (k', v) :: rest => if String.eqb k' k then Some v else get rest k
  end.

Definition has (m : t) (k : string) : bool :=
  match get m k with Some _ => true | None => false end.

(** [Map.set]: an existing key keeps its position, a new key is
    appended. *)
Fixpoint set (m : t) (k : string) (v : V) : t :=
  match m with
  | [] => [(k, v)]
  | (k', v') :: rest =>
      if String.eqb k' k then (k', v) :: rest else (k', v') :: set rest k v
  end.

Definition keys (m : t) : list string := map fst m.

Definition values (m : t) : list V := map snd m.

Definition size (m : t) : nat := length m.

End Ops.

Arguments t V : clear implicits.

End JsMap.

(** ** db.ts *)

Definition Date : Type := Z.

Inductive TransactionStatus : Type :=
| CREATED
| SUBMITTED
| PROCESSED
| CONFIRMED
| FINALIZED
| FAILED.

Definition TransactionStatus_eqb (a b : TransactionStatus) : bool :=
  match a, b with
  | CREATED, CREATED | SUBMITTED, SUBMITTED | PROCESSED, PROCESSED
  | CONFIRMED, CONFIRMED | FINALIZED, FINALIZED | FAILED, FAILED => true
  | _, _ => false
  end.

Record TransactionRecord : Type := mkTransactionRecord {
  signature : string;
  serializedTransaction : string;
  sender : string;
  recipient : string;
  amount : N;
  lastValidBlockHeight : Z;
  status : TransactionStatus;
  createdAt : Date;
  updatedAt : Date
}.

Record UserRecord : Type := mkUserRecord {
  publicKey : string;
  name : string
}.

Record Database : Type := mkDatabase {
  transactions : JsMap.t TransactionRecord;
  users : JsMap.t UserRecord
}.

Module Db.

Definition empty : Database :=
  {| transactions := JsMap.empty; users := JsMap.empty |}.

Definition addUser (d : Database) (pk nm : string) : Database :=
  {| transactions := transactions d;
     users := JsMap.set (users d) pk {| publicKey := pk; name := nm |} |}.

Definition getUser (d : Database) (pk : string) : option UserRecord :=
  JsMap.get (users d) pk.

Definition isUserRegistered (d : Database) (pk : string) : bool :=
  JsMap.has (users d) pk.

(** "For demo purposes, always return true". *)
Definition isCompliant (d : Database) (pk : string) : bool := true.

Definition addTransaction (d : Database) (record : TransactionRecord)
  : Database :=
  if negb (JsMap.has (transactions d) (signature record))
  then {| transactions := JsMap.set (transactions d) (signature record) record;
          users := users d |}
  else d.

Definition getTransaction (d : Database) (sig : string)
  : option TransactionRecord :=
  JsMap.get (transactions d) sig.

(** The stored object is mutated in place: its [status] and [updatedAt]
    change, its key and position do not. *)
Definition updateTransactionStatus (d : Database) (sig : string)
    (st : TransactionStatus) (now : Date) : Database :=
  match JsMap.get (transactions d) sig with
  | Some record =>
      {| transactions :=
           JsMap.set (transactions d) sig
             {| signature := signature record;
                serializedTransaction := serializedTransaction record;
                sender := sender record;
                recipient := recipient record;
                amount := amount record;
                lastValidBlockHeight := lastValidBlockHeight record;
                status := st;
                createdAt := createdAt record;
                updatedAt := now |};
         users := users d |}
  | None => d
  end.

Definition terminalStates : list TransactionStatus := [FINALIZED; FAILED].

Definition includes (l : list TransactionStatus) (s : TransactionStatus)
  : bool :=
  existsb (TransactionStatus_eqb s) l.

Definition getNonTerminalTransactions (d : Database)
  : list TransactionRecord :=
  filter (fun tx => negb (includes terminalStates (status tx)))
         (JsMap.values (transactions d)).

Definition getAllTransactions (d : Database) : list TransactionRecord :=
  JsMap.values (transactions d).

End Db.

(** ** The parts of [@solana/web3.js] the relayer and the workflow read *)

Definition PublicKey : Type := string.

Definition PublicKey_equals (a b : PublicKey) : bool := String.eqb a b.

Record AccountMeta : Type := mkAccountMeta {
  pubkey : PublicKey;
  isSigner : bool;
  isWritable : bool
}.

Record TransactionInstruction : Type := mkTransactionInstruction {
  keys : list AccountMeta;
  programId : PublicKey;
  data : list byte
}.

Record SignaturePubkeyPair : Type := mkSignaturePubkeyPair {
  sigPublicKey : PublicKey;
  sigSignature : option (list byte)
}.

Record Transaction : Type := mkTransaction {
  signatures : list SignaturePubkeyPair;
  feePayer : option PublicKey;
  instructions : list TransactionInstruction;
  recentBlockhash : option string
}.

(** The getter [Transaction.signature]: the first signature, if any. *)
Definition Transaction_signature (t : Transaction) : option (list byte) :=
  match signatures t with
  | [] => None
  | s :: _ => sigSignature s
  end.

Record Keypair : Type := mkKeypair {
  kpPublicKey : PublicKey;
  secretKey : list byte
}.

(** A returned value or a thrown [Error] with its [message]. *)
Inductive Outcome (A : Type) : Type :=
| Return (a : A)
| Throw (message : string).

Arguments Return {A} a.
Arguments Throw {A} message.

Record SignatureStatus : Type := mkSignatureStatus {
  confirmationStatus : option string
}.

Record EpochInfo : Type := mkEpochInfo {
  blockHeight : option Z
}.

(** The ledger node as the workflow sees it while it processes one
    record.  The boolean of [getSignatureStatuses] is
    [searchTransactionHistory]; its result is [value[0]]. *)
Record Connection : Type := mkConnection {
  getSignatureStatuses : string -> bool -> Outcome (option SignatureStatus);
  isBlockhashValid : option string -> Outcome bool;
  sendRawTransaction : list byte -> Outcome string;
  getEpochInfo : Outcome EpochInfo;
  getTransaction : string -> Outcome (option unit)
}.

(** ** Library functions and constants the code is linked against *)

Class Platform : Type := {
  (** [TOKEN_PROGRAM_ID] and [ASSOCIATED_TOKEN_PROGRAM_ID] of
      [@solana/spl-token]. *)
  TOKEN_PROGRAM_ID : PublicKey;
  ASSOCIATED_TOKEN_PROGRAM_ID : PublicKey;
  (** [getAssociatedTokenAddressSync(mint, owner)]; it throws for an owner
      that is off the curve. *)
  getAssociatedTokenAddressSync : PublicKey -> PublicKey -> Outcome PublicKey;
  (** [Transaction.from(buffer)]. *)
  Transaction_from : list byte -> Outcome Transaction;
  (** [transaction.serialize()] with its default checks. *)
  Transaction_serialize : Transaction -> Outcome (list byte);
  (** [transaction.partialSign(keypair)]: the transaction after the call. *)
  Transaction_partialSign : Transaction -> Keypair -> Outcome Transaction;
  (** [Buffer.from(text, "base64")] and [buffer.toString("base64")]. *)
  base64_decode : string -> list byte;
  base64_encode : list byte -> string;
  (** [bs58.encode]. *)
  bs58_encode : list byte -> string;
  (** The value of the n-th [new Date()] evaluated by the process. *)
  clock : nat -> Date
}.

(** ** The world the asynchronous methods run in *)

(** Calls recorded in the order they are made: entry into the validator,
    the two writes of the database, the broadcast and the receipt. *)
Inductive Event : Type :=
| EvValidateTransaction (t : Transaction)
| EvAddTransaction (record : TransactionRecord)
| EvUpdateTransactionStatus (sig : string) (st : TransactionStatus)
| EvSendRawTransaction (raw : list byte)
| EvSendReceipt (tx : TransactionRecord).

Record World : Type := mkWorld {
  db : Database;
  trace : list Event;
  ticks : nat
}.

Definition M (A : Type) : Type := World -> Outcome A * World.

Definition ret {A : Type} (a : A) : M A := fun w => (Return a, w).

Definition throw {A : Type} (message : string) : M A :=
  fun w => (Throw message, w).

Definition bind {A B : Type} (m : M A) (k : A -> M B) : M B :=
  fun w =>
    match m w with
    | (Return a, w') => k a w'
    | (Throw message, w') => (Throw message, w')
    end.

Definition tryCatch {A : Type} (body : M A) (handler : string -> M A) : M A :=
  fun w =>
    match body w with
    | (Return a, w') => (Return a, w')
    | (Throw message, w') => handler message w'
    end.

Definition lift {A : Type} (o : Outcome A) : M A := fun w => (o, w).

Definition gets {A : Type} (f : World -> A) : M A := fun w => (Return (f w), w).

Definition emit (e : Event) : M unit :=
  fun w =>
    (Return tt, {| db := db w; trace := trace w ++ [e]; ticks := ticks w |}).

Declare Scope m_scope.
Delimit Scope m_scope with m.
Notation "x <- m ;; k" := (bind m (fun x => k))
  (at level 61, m at next level, right associativity) : m_scope.
Notation "m ;;; k" := (bind m (fun _ => k))
  (at level 61, right associativity) : m_scope.

Fixpoint forEach {A : Type} (l : list A) (body : A -> M unit) : M unit :=
  match l with
  | [] => ret tt
  | x :: rest => bind (body x) (fun _ => forEach rest body)
  end.

Definition bindO {A B : Type} (o : Outcome A) (k : A -> Outcome B)
  : Outcome B :=
  match o with
  | Return a => k a
  | Throw message => Throw message
  end.

Declare Scope outcome_scope.
Delimit Scope outcome_scope with outcome.
Notation "x <- o ;; k" := (bindO o (fun x => k))
  (at level 61, o at next level, right associativity) : outcome_scope.

(** [array[i]] followed by a property read: a [TypeError] when the index
    is out of range. *)
Definition at_index {A : Type} (l : list A) (i : nat) : Outcome A :=
  match nth_error l i with
  | Some x => Return x
  | None => Throw "Cannot read properties of undefined"
  end.

(** [buffer[i] !== n]. *)
Definition byte_differs (l : list byte) (i : nat) (n : N) : bool :=
  match nth_error l i with
  | Some b => negb (N.eqb (Byte.to_N b) n)
  | None => true
  end.

Fixpoint le_bytes_to_N (l : list byte) : N :=
  match l with
  | [] => 0%N
  | b :: rest => (Byte.to_N b + 256 * le_bytes_to_N rest)%N
  end.

(** [buffer.readBigUInt64LE(offset)]: a [RangeError] when fewer than
    eight bytes follow the offset. *)
Definition readBigUInt64LE (l : list byte) (offset : nat) : Outcome N :=
  let window := firstn 8 (skipn offset l) in
  if Nat.eqb (length window) 8 then Return (le_bytes_to_N window)
  else Throw "The value of offset is out of range".

Definition nat_to_string (n : nat) : string :=
  NilEmpty.string_of_uint (Nat.to_uint n).

Section Clocked.
Context {platform : Platform}.

(** [new Date()]. *)
Definition newDate : M Date :=
  fun w =>
    (Return (clock (ticks w)),
     {| db := db w; trace := trace w; ticks := S (ticks w) |}).

Definition db_addTransaction (record : TransactionRecord) : M unit :=
  fun w =>
    (Return tt,
     {| db := Db.addTransaction (db w) record;
        trace := trace w ++ [EvAddTransaction record];
        ticks := ticks w |}).

(** The clock is read only when the record is found. *)
Definition db_updateTransactionStatus (sig : string)
    (st : TransactionStatus) : M unit :=
  fun w =>
    match Db.getTransaction (db w) sig with
    | Some _ =>
        (Return tt,
         {| db := Db.updateTransactionStatus (db w) sig st (clock (ticks w));
            trace := trace w ++ [EvUpdateTransactionStatus sig st];
            ticks := S (ticks w) |})
    | None =>
        (Return tt,
         {| db := db w;
            trace := trace w ++ [EvUpdateTransactionStatus sig st];
            ticks := ticks w |})
    end.

(** A [tx] handed around by the workflow is the object stored under its
    own signature: a read of [tx] after a write of the database sees the
    write. *)
Definition deref (tx : TransactionRecord) : M TransactionRecord :=
  gets (fun w =>
          match Db.getTransaction (db w) (signature tx) with
          | Some live => live
          | None => tx
          end).

End Clocked.

(** ** relayer.ts *)

(** USDC mint address on devnet. *)
Definition USDC_MINT : PublicKey :=
  "4zMMC9srt5Ri5X14GAgXhaHii3GnPAEERYPJgZJDncDU".

Definition TRANSFER_CHECKED_DISCRIMINATOR : N := 12.

Definition CREATE_IDEMPOTENT_ATA_DISCRIMINATOR : N := 1.

(** [{ valid: true, targetAta }] or [{ valid: false, error }]. *)
Inductive CreateAtaResult : Type :=
| AtaValid (targetAta : PublicKey)
| AtaInvalid (error : string).

(** [{ valid: true, sender, recipient, amount }] or
    [{ valid: false, error }]. *)
Inductive ValidationResult : Type :=
| Valid (vSender vRecipient : string) (vAmount : N)
| Invalid (error : string).

Definition valid (r : ValidationResult) : bool :=
  match r with Valid _ _ _ => true | Invalid _ => false end.

Record RelayResult : Type := mkRelayResult {
  success : bool;
  transactionId : option string;
  relayError : option string
}.

Definition relayFailure (error : string) : RelayResult :=
  {| success := false; transactionId := None; relayError := Some error |}.

Definition relaySuccess (id : string) : RelayResult :=
  {| success := true; transactionId := Some id; relayError := None |}.

Section Relayer.
Context {platform : Platform}.
Variable keypair : Keypair.

Definition validateCreateAtaInstruction (instruction : TransactionInstruction)
  : Outcome CreateAtaResult :=
  if negb (PublicKey_equals (programId instruction) ASSOCIATED_TOKEN_PROGRAM_ID)
  then Return (AtaInvalid "First instruction must be from Associated Token Program")
  else if negb (Nat.eqb (length (data instruction)) 1)
          || byte_differs (data instruction) 0 CREATE_IDEMPOTENT_ATA_DISCRIMINATOR
  then Return (AtaInvalid "First instruction must be create idempotent ATA")
  else if Nat.ltb (length (keys instruction)) 6
  then Return (AtaInvalid "Invalid create ATA instruction accounts")
  else
    (key1 <- at_index (keys instruction) 1 ;;
     key3 <- at_index (keys instruction) 3 ;;
     let targetAta := pubkey key1 in
     let mint := pubkey key3 in
     if negb (PublicKey_equals mint USDC_MINT)
     then Return (AtaInvalid "ATA must be for USDC token")
     else Return (AtaValid targetAta))%outcome.

Definition validateTransferInstruction (instruction : TransactionInstruction)
    (recipient : PublicKey) : Outcome ValidationResult :=
  if negb (PublicKey_equals (programId instruction) TOKEN_PROGRAM_ID)
  then Return (Invalid "Second instruction must be from Token Program")
  else if Nat.ltb (length (data instruction)) 9
          || byte_differs (data instruction) 0 TRANSFER_CHECKED_DISCRIMINATOR
  then Return (Invalid "Second instruction must be TransferChecked")
  else
    (amount <- readBigUInt64LE (data instruction) 1 ;;
     if Nat.ltb (length (keys instruction)) 4
     then Return (Invalid "Invalid TransferChecked instruction accounts")
     else
       key0 <- at_index (keys instruction) 0 ;;
       key1 <- at_index (keys instruction) 1 ;;
       key2 <- at_index (keys instruction) 2 ;;
       key3 <- at_index (keys instruction) 3 ;;
       let sourceAta := pubkey key0 in
       let mint := pubkey key1 in
       let destAta := pubkey key2 in
       let sourceOwner := pubkey key3 in
       if negb (PublicKey_equals mint USDC_MINT)
       then Return (Invalid "Transfer must be USDC token")
       else
         expectedSourceAta <- getAssociatedTokenAddressSync USDC_MINT sourceOwner ;;
         if negb (PublicKey_equals sourceAta expectedSourceAta)
         then Return (Invalid "Source ATA does not match sender's USDC ATA")
         else
           expectedDestAta <- getAssociatedTokenAddressSync USDC_MINT recipient ;;
           if negb (PublicKey_equals destAta expectedDestAta)
           then Return (Invalid "Destination ATA does not match recipient's USDC ATA")
           else Return (Valid sourceOwner recipient amount))%outcome.

(** Helper to get recipient from create ATA instruction. *)
Definition getRecipientFromCreateAta (instruction : TransactionInstruction)
  : Outcome PublicKey :=
  (key2 <- at_index (keys instruction) 2 ;; Return (pubkey key2))%outcome.

(** [transaction.signatures.find(sig => sig.publicKey.equals(pk))?.signature] *)
Definition findSignature (sigs : list SignaturePubkeyPair) (pk : PublicKey)
  : option (list byte) :=
  match find (fun sig => PublicKey_equals (sigPublicKey sig) pk) sigs with
  | Some info => sigSignature info
  | None => None
  end.

Definition is_some {A : Type} (o : option A) : bool :=
  match o with Some _ => true | None => false end.

(** The first signer outside [expectedSigners], if any. *)
Definition unexpectedSigner (expectedSigners : list string)
    (sigs : list SignaturePubkeyPair) : option PublicKey :=
  match find (fun sig =>
                negb (existsb (String.eqb (sigPublicKey sig)) expectedSigners))
             sigs with
  | Some sig => Some (sigPublicKey sig)
  | None => None
  end.

Definition validateTransaction (d : Database) (transaction : Transaction)
  : Outcome ValidationResult :=
  let instructions := instructions transaction in
  if negb (Nat.eqb (length instructions) 2)
  then Return (Invalid ("Expected 2 instructions, got "
                        ++ nat_to_string (length instructions)))
  else if negb (match feePayer transaction with
                | Some payer => PublicKey_equals payer (kpPublicKey keypair)
                | None => false
                end)
  then Return (Invalid "Fee payer must be the relayer")
  else
    (instruction0 <- at_index instructions 0 ;;
     createAtaResult <- validateCreateAtaInstruction instruction0 ;;
     match createAtaResult with
     | AtaInvalid error => Return (Invalid error)
     | AtaValid targetAta =>
       recipient <- getRecipientFromCreateAta instruction0 ;;
       instruction1 <- at_index instructions 1 ;;
       transferResult <- validateTransferInstruction instruction1 recipient ;;
       match transferResult with
       | Invalid error => Return (Invalid error)
       | Valid trSender trRecipient trAmount =>
         recipientAta <- getAssociatedTokenAddressSync USDC_MINT trRecipient ;;
         if negb (PublicKey_equals targetAta recipientAta)
         then Return (Invalid "ATA creation must target recipient's USDC ATA")
         else if negb (Db.isUserRegistered d trSender)
         then Return (Invalid "Sender is not a registered user")
         else if negb (Db.isUserRegistered d trRecipient)
         then Return (Invalid "Recipient is not a registered user")
         else if negb (Db.isCompliant d trSender)
         then Return (Invalid "Sender is not compliant")
         else if negb (Db.isCompliant d trRecipient)
         then Return (Invalid "Recipient is not compliant")
         else if negb (is_some (findSignature (signatures transaction) trSender))
         then Return (Invalid "Sender signature is missing")
         else if is_some (findSignature (signatures transaction)
                                        (kpPublicKey keypair))
         then Return (Invalid "Relayer signature should not be present yet")
         else
           let expectedSigners := [kpPublicKey keypair; trSender] in
           match unexpectedSigner expectedSigners (signatures transaction) with
           | Some pk => Return (Invalid ("Unexpected signer: " ++ pk))
           | None => Return (Valid trSender trRecipient trAmount)
           end
       end
     end)%outcome.

(** [!transaction.signature?.toString("base64")]: no first signature, or
    one whose text is empty. *)
Definition signatureMissing (t : Transaction) : bool :=
  match Transaction_signature t with
  | Some first => String.eqb (base64_encode first) EmptyString
  | None => true
  end.

(** [transaction.signatures[1]?.signature] *)
Definition senderSignature (t : Transaction) : option (list byte) :=
  match nth_error (signatures t) 1 with
  | Some info => sigSignature info
  | None => None
  end.

(** [await this.validateTransaction(transaction)] *)
Definition call_validateTransaction (transaction : Transaction)
  : M ValidationResult :=
  (emit (EvValidateTransaction transaction) ;;;
   d <- gets db ;;
   lift (validateTransaction d transaction))%m.

Definition relayTransaction (serializedTransaction : string)
    (lastValidBlockHeight : Z) : M RelayResult :=
  tryCatch
    (transaction <- lift (Transaction_from (base64_decode serializedTransaction)) ;;
     validationResult <- call_validateTransaction transaction ;;
     match validationResult with
     | Invalid error => ret (relayFailure error)
     | Valid vSender vRecipient vAmount =>
       signed <- lift (Transaction_partialSign transaction keypair) ;;
       if signatureMissing signed
       then ret (relayFailure "Failed to get transaction signature")
       else
         match senderSignature signed with
         | None => ret (relayFailure "Sender signature not found")
         | Some senderSig =>
           let transactionId := base64_encode senderSig in
           existingTx <- gets (fun w => Db.getTransaction (db w) transactionId) ;;
           match existingTx with
           | Some _ => ret (relaySuccess transactionId)
           | None =>
             raw <- lift (Transaction_serialize signed) ;;
             created <- newDate ;;
             updated <- newDate ;;
             let record :=
               {| signature := transactionId;
                  serializedTransaction := base64_encode raw;
                  sender := vSender;
                  recipient := vRecipient;
                  amount := vAmount;
                  lastValidBlockHeight := lastValidBlockHeight;
                  status := CREATED;
                  createdAt := created;
                  updatedAt := updated |} in
             db_addTransaction record ;;;
             ret (relaySuccess transactionId)
           end
         end
     end)%m
    (fun message => ret (relayFailure message)).

Definition getTransactionStatus (id : string)
  : M (option TransactionStatus * option string) :=
  (record <- gets (fun w => Db.getTransaction (db w) id) ;;
   match record with
   | None => ret (None, Some "Transaction not found")
   | Some r => ret (Some (status r), None)
   end)%m.

End Relayer.

(** ** workflow.ts *)

Section Workflow.
Context {platform : Platform}.

(** The receipt is the settlement notification; it carries the record as
    it reads when the receipt is sent. *)
Definition sendReceipt (tx : TransactionRecord) : M unit :=
  emit (EvSendReceipt tx).

Definition handleExistingStatus (tx : TransactionRecord)
    (confirmationStatus : option string) : M unit :=
  match confirmationStatus with
  | None => ret tt
  | Some confirmation =>
    if String.eqb confirmation EmptyString then ret tt
    else if String.eqb confirmation "processed" then
      if negb (TransactionStatus_eqb (status tx) PROCESSED)
      then db_updateTransactionStatus (signature tx) PROCESSED
      else ret tt
    else if String.eqb confirmation "confirmed" then
      if negb (TransactionStatus_eqb (status tx) CONFIRMED)
         && negb (TransactionStatus_eqb (status tx) FINALIZED)
      then db_updateTransactionStatus (signature tx) CONFIRMED
      else ret tt
    else if String.eqb confirmation "finalized" then
      if negb (TransactionStatus_eqb (status tx) FINALIZED)
      then (db_updateTransactionStatus (signature tx) FINALIZED ;;;
            live <- deref tx ;;
            sendReceipt live)%m
      else ret tt
    else ret tt
  end.

Definition handleExpiredBlockhash (connection : Connection)
    (tx : TransactionRecord) (onChainSignature : string) : M unit :=
  (epochInfo <- lift (getEpochInfo connection) ;;
   let currentBlockHeight :=
     match blockHeight epochInfo with Some h => h | None => 0%Z end in
   if Z.ltb currentBlockHeight (lastValidBlockHeight tx)
   then ret tt
   else
     statusesWithHistory <-
       lift (getSignatureStatuses connection onChainSignature true) ;;
     match statusesWithHistory with
     | Some _ => ret tt
     | None =>
       found <- tryCatch
                  (txResult <- lift (getTransaction connection onChainSignature) ;;
                   ret (match txResult with Some _ => true | None => false end))
                  (fun _ => ret false) ;;
       if found then ret tt
       else db_updateTransactionStatus (signature tx) FAILED
     end)%m.

Definition handleNullStatus (connection : Connection)
    (tx : TransactionRecord) (transaction : Transaction)
    (onChainSignature : string) : M unit :=
  (blockhashValid <-
     lift (isBlockhashValid connection (recentBlockhash transaction)) ;;
   if blockhashValid then
     tryCatch
       (rawTransaction <- lift (Transaction_serialize transaction) ;;
        emit (EvSendRawTransaction rawTransaction) ;;;
        _ <- lift (sendRawTransaction connection rawTransaction) ;;
        if TransactionStatus_eqb (status tx) CREATED
        then db_updateTransactionStatus (signature tx) SUBMITTED
        else ret tt)
       (fun _ => ret tt)
   else handleExpiredBlockhash connection tx onChainSignature)%m.

Definition processTransaction (connection : Connection)
    (tx : TransactionRecord) : M unit :=
  (transaction <-
     lift (Transaction_from (base64_decode (serializedTransaction tx))) ;;
   match Transaction_signature transaction with
   | None => ret tt
   | Some signatureBuffer =>
     let onChainSignature := bs58_encode signatureBuffer in
     statuses <-
       lift (getSignatureStatuses connection onChainSignature false) ;;
     match statuses with
     | None => handleNullStatus connection tx transaction onChainSignature
     | Some st => handleExistingStatus tx (confirmationStatus st)
     end
   end)%m.

(** The body of the loop of [processTransactions]: the call of
    [processTransaction] in its [try], whose [catch] only logs.
    [ledger sig] is the node as it answers while the record stored under
    [sig] is processed. *)
Definition attempt (ledger : string -> Connection) (tx : TransactionRecord)
  : M unit :=
  tryCatch
    (live <- deref tx ;;
     processTransaction (ledger (signature tx)) live)%m
    (fun _ => ret tt).

(** One cycle of the loop. *)
Definition processTransactions (ledger : string -> Connection) : M unit :=
  (transactions <- gets (fun w => Db.getNonTerminalTransactions (db w)) ;;
   forEach transactions (attempt ledger))%m.

End Workflow.

(** ** Runs of the system: admissions, registrations and loop cycles

    In a run every cycle of the loop is completed before the next action
    begins.  The cycles of the program may also overlap; the schedules
    below cover that. *)

Inductive Action : Type :=
| ActAddUser (pk nm : string)
| ActRelay (serializedTransaction : string) (lastValidBlockHeight : Z)
| ActCycle (ledger : string -> Connection).

Section Runs.
Context {platform : Platform}.
Variable keypair : Keypair.

Definition step (a : Action) (w : World) : World :=
  match a with
  | ActAddUser pk nm =>
      {| db := Db.addUser (db w) pk nm; trace := trace w; ticks := ticks w |}
  | ActRelay s h => snd (relayTransaction keypair s h w)
  | ActCycle ledger => snd (processTransactions ledger w)
  end.

Definition run (acts : list Action) (w : World) : World :=
  fold_left (fun w a => step a w) acts w.

End Runs.

Definition initialWorld : World :=
  {| db := Db.empty; trace := []; ticks := 0 |}.

(** ** A small concrete platform and concrete inputs

    Used to run the definitions above on explicit transactions. *)

Module Demo.

Definition relayerKey : Keypair :=
  {| kpPublicKey := "Relayer"; secretKey := [x52] |}.

Definition TOKEN : PublicKey := "TokenkegQfeZyiNwAJbNbGKPFXCWuBvf9Ss623VQ5DA".
Definition ATOKEN : PublicKey := "ATokenGPvbdGVxr1b2hvZbsiqW5xWH25efTNsLJA8knL".
Definition SYSTEM : PublicKey := "11111111111111111111111111111111".

Definition ata (mint owner : PublicKey) : PublicKey :=
  "ata:" ++ mint ++ ":" ++ owner.

Definition getAta (mint owner : PublicKey) : Outcome PublicKey :=
  if String.eqb owner EmptyString then Throw "TokenOwnerOffCurveError"
  else Return (ata mint owner).

Definition account (pk : PublicKey) (signer writable : bool) : AccountMeta :=
  {| pubkey := pk; isSigner := signer; isWritable := writable |}.

Definition createAtaIx (mint : PublicKey) : TransactionInstruction :=
  {| keys := [ account "Relayer" true true;
               account (ata mint "Recipient") false true;
               account "Recipient" false false;
               account mint false false;
               account SYSTEM false false;
               account TOKEN false false ];
     programId := ATOKEN;
     data := [x01] |}.

(** A checked transfer of 10 units with 6 decimals. *)
Definition transferIx (mint : PublicKey) : TransactionInstruction :=
  {| keys := [ account (ata USDC_MINT "Sender") false true;
               account mint false false;
               account (ata USDC_MINT "Recipient") false true;
               account "Sender" true false ];
     programId := TOKEN;
     data := [x0c; x0a; x00; x00; x00; x00; x00; x00; x00; x06] |}.

Definition senderSigned (ixs : list TransactionInstruction) : Transaction :=
  {| signatures :=
       [ {| sigPublicKey := "Relayer"; sigSignature := None |};
         {| sigPublicKey := "Sender"; sigSignature := Some [x53; x31] |} ];
     feePayer := Some "Relayer";
     instructions := ixs;
     recentBlockhash := Some "blockhash-1" |}.

(** The transfer a client builds. *)
Definition transfer : Transaction :=
  senderSigned [createAtaIx USDC_MINT; transferIx USDC_MINT].

(** The same with a third instruction attached. *)
Definition threeInstructions : Transaction :=
  senderSigned [createAtaIx USDC_MINT; transferIx USDC_MINT;
                transferIx USDC_MINT].

(** The same as [transfer] with one more account on the first
    instruction: writable, not a signer, neither relayer nor sender. *)
Definition extraWritable : Transaction :=
  senderSigned
    [ {| keys := keys (createAtaIx USDC_MINT) ++ [account "Mallory" false true];
         programId := ATOKEN;
         data := [x01] |};
      transferIx USDC_MINT ].

(** The same as [transfer] for another mint in the transfer, and in the
    account creation. *)
Definition otherMintTransfer : Transaction :=
  senderSigned [createAtaIx USDC_MINT; transferIx "OtherMint"].

Definition otherMintCreate : Transaction :=
  senderSigned [createAtaIx "OtherMint"; transferIx USDC_MINT].

Definition partialSign (t : Transaction) (kp : Keypair) : Outcome Transaction :=
  if existsb (fun s => String.eqb (sigPublicKey s) (kpPublicKey kp)) (signatures t)
  then Return
         {| signatures :=
              map (fun s =>
                     if String.eqb (sigPublicKey s) (kpPublicKey kp)
                     then {| sigPublicKey := sigPublicKey s;
                             sigSignature := Some (secretKey kp ++ [x21])%list |}
                     else s)
                  (signatures t);
            feePayer := feePayer t;
            instructions := instructions t;
            recentBlockhash := recentBlockhash t |}
  else Throw "unknown signer".

Definition cosigned (t : Transaction) : Transaction :=
  match partialSign t relayerKey with
  | Return t' => t'
  | Throw _ => t
  end.

(** A wire format of five messages. *)
Definition decode (bytes : list byte) : Outcome Transaction :=
  match bytes with
  | [x01] => Return transfer
  | [x02] => Return (cosigned transfer)
  | [x03] => Return threeInstructions
  | [x04] => Return extraWritable
  | [x05] => Return (cosigned extraWritable)
  | [x06] => Return otherMintTransfer
  | [x07] => Return otherMintCreate
  | _ => Throw "Failed to deserialize"
  end.

Definition keyCount (t : Transaction) : nat :=
  fold_right (fun ix n => length (keys ix) + n) 0 (instructions t).

Definition serialize (t : Transaction) : Outcome (list byte) :=
  if forallb (fun s => match sigSignature s with Some _ => true | None => false end)
             (signatures t)
  then Return (if Nat.ltb 10 (keyCount t) then [x05] else [x02])
  else Throw "Signature verification failed".

#[local] Instance platform : Platform :=
  {| TOKEN_PROGRAM_ID := TOKEN;
     ASSOCIATED_TOKEN_PROGRAM_ID := ATOKEN;
     getAssociatedTokenAddressSync := getAta;
     Transaction_from := decode;
     Transaction_serialize := serialize;
     Transaction_partialSign := partialSign;
     base64_decode := list_byte_of_string;
     base64_encode := string_of_list_byte;
     bs58_encode := string_of_list_byte;
     clock := fun n => (1000 + Z.of_nat n)%Z |}.

Definition wire (b : byte) : string := string_of_list_byte [b].

(** Sender and recipient are registered, then the transfer is accepted
    with an expiry height of 1000. *)
Definition registration : list Action :=
  [ActAddUser "Sender" "alice"; ActAddUser "Recipient" "bob"].

Definition admission : list Action :=
  (registration ++ [ActRelay (wire x01) 1000%Z])%list.

Definition registered : World := run relayerKey registration initialWorld.

Definition accepted : World := run relayerKey admission initialWorld.

(** The record of the accepted transfer as it is stored. *)
Definition stored : TransactionRecord :=
  {| signature := "S1";
     serializedTransaction := wire x02;
     sender := "Sender";
     recipient := "Recipient";
     amount := 10;
     lastValidBlockHeight := 1000%Z;
     status := CREATED;
     createdAt := 1000%Z;
     updatedAt := 1001%Z |}.

(** A node that knows the transaction under the given confirmation
    status. *)
Definition reporting (confirmation : string) : Connection :=
  {| getSignatureStatuses := fun _ _ =>
       Return (Some {| confirmationStatus := Some confirmation |});
     isBlockhashValid := fun _ => Return true;
     sendRawTransaction := fun _ => Return "sent";
     getEpochInfo := Return {| blockHeight := Some 0%Z |};
     getTransaction := fun _ => Return (Some tt) |}.

(** A node that does not know the transaction, says its blockhash has
    expired and has finalized up to [height]; [lookup] is its answer to
    the direct lookup. *)
Definition expired (height : Z) (lookup : Outcome (option unit)) : Connection :=
  {| getSignatureStatuses := fun _ _ => Return None;
     isBlockhashValid := fun _ => Return false;
     sendRawTransaction := fun _ => Throw "Blockhash not found";
     getEpochInfo := Return {| blockHeight := Some height |};
     getTransaction := fun _ => lookup |}.

End Demo.

(** ** Vocabulary of the properties *)

(** The ordering ACCEPTED < SUBMITTED < PROCESSED < CONFIRMED < FINALIZED
    of the lifecycle states ([CREATED] is the accepted state); [FAILED]
    stands apart. *)
Definition rank (s : TransactionStatus) : option nat :=
  match s with
  | CREATED => Some 0
  | SUBMITTED => Some 1
  | PROCESSED => Some 2
  | CONFIRMED => Some 3
  | FINALIZED => Some 4
  | FAILED => None
  end.

Definition weaker (a b : TransactionStatus) : Prop :=
  match rank a, rank b with
  | Some i, Some j => i < j
  | _, _ => False
  end.

Definition statusOf (w : World) (id : string) : option TransactionStatus :=
  option_map status (Db.getTransaction (db w) id).

(** Number of records stored under an identifier. *)
Definition storedUnder (w : World) (id : string) : nat :=
  count_occ string_dec (JsMap.keys (transactions (db w))) id.

Definition isReceiptFor (id : string) (e : Event) : bool :=
  match e with
  | EvSendReceipt tx => String.eqb (signature tx) id
  | _ => false
  end.

Definition isFailedMarkFor (id : string) (e : Event) : bool :=
  match e with
  | EvUpdateTransactionStatus sig FAILED => String.eqb sig id
  | _ => false
  end.

Definition isValidation (e : Event) : bool :=
  match e with
  | EvValidateTransaction _ => true
  | _ => false
  end.

Definition occurrences (p : Event -> bool) (tr : list Event) : nat :=
  length (filter p tr).

(** Account entries of a transaction that are marked writable. *)
Definition writableAccounts (t : Transaction) : list PublicKey :=
  map pubkey (filter isWritable (concat (map keys (instructions t)))).

(** The mint declared by the transfer instruction (account 1 of the second
    instruction) and by the account creation (account 3 of the first). *)
Definition accountAt (t : Transaction) (ix key : nat) : option PublicKey :=
  match nth_error (instructions t) ix with
  | Some instruction => option_map pubkey (nth_error (keys instruction) key)
  | None => None
  end.

Definition transferMint (t : Transaction) : option PublicKey := accountAt t 1 1.

Definition createAtaMint (t : Transaction) : option PublicKey := accountAt t 0 3.

Definition createAtaTarget (t : Transaction) : option PublicKey := accountAt t 0 1.

Definition createAtaOwner (t : Transaction) : option PublicKey := accountAt t 0 2.

(** Every key of the store is the [signature] of its record, and no key
    occurs twice. *)
Definition wellKeyed (d : Database) : Prop :=
  NoDup (JsMap.keys (transactions d))
  /\ forall k r, In (k, r) (transactions d) -> signature r = k.

Definition answersNothing {A : Type} (o : Outcome (option A)) : bool :=
  match o with Return None => true | _ => false end.

Definition threw {A : Type} (o : Outcome A) : bool :=
  match o with Throw _ => true | Return _ => false end.

Definition finalizedHeight (info : EpochInfo) : Z :=
  match blockHeight info with Some h => h | None => 0%Z end.

Section FailureDetermination.
Context {platform : Platform}.

(** What the workflow asks the node about one record, once the stored
    transaction has been decoded: the on-chain signature and the
    blockhash. *)
Definition onChain (tx : TransactionRecord) : option (string * option string) :=
  match Transaction_from (base64_decode (serializedTransaction tx)) with
  | Return t =>
      match Transaction_signature t with
      | Some sig => Some (bs58_encode sig, recentBlockhash t)
      | None => None
      end
  | Throw _ => None
  end.

(** The node has no status for the signature and says that the blockhash
    is no longer valid. *)
Definition unknownAndExpired (connection : Connection) (tx : TransactionRecord)
  : bool :=
  match onChain tx with
  | Some (sig, blockhash) =>
      answersNothing (getSignatureStatuses connection sig false)
      && match isBlockhashValid connection blockhash with
         | Return false => true
         | _ => false
         end
  | None => false
  end.

(** The finalized height has reached the record's [lastValidBlockHeight]. *)
Definition heightReached (connection : Connection) (tx : TransactionRecord)
  : bool :=
  match getEpochInfo connection with
  | Return info => negb (Z.ltb (finalizedHeight info) (lastValidBlockHeight tx))
  | Throw _ => false
  end.


(** The same, where the direct lookup may also have failed with an
    error. *)
Definition laterChecksEmptyOrFailed (connection : Connection) (sig : string)
  : bool :=
  answersNothing (getSignatureStatuses connection sig true)
  && (answersNothing (getTransaction connection sig)
      || threw (getTransaction connection sig)).


(** The condition the workflow acts on. *)
Definition failureDetermined (connection : Connection) (tx : TransactionRecord)
  : bool :=
  match onChain tx with
  | Some (sig, _) =>
      unknownAndExpired connection tx
      && (heightReached connection tx
          && laterChecksEmptyOrFailed connection sig)
  | None => false
  end.

(** ** What the processing of one record does to the world *)

Definition broadcast (raw : list byte) (w : World) : World :=
  snd (emit (EvSendRawTransaction raw) w).

Definition marked (sig : string) (st : TransactionStatus) (w : World) : World :=
  snd (db_updateTransactionStatus sig st w).

Definition receipted (tx : TransactionRecord) (w : World) : World :=
  snd (bind (deref tx) sendReceipt w).

(** The seven ways a call of [processTransaction] ends. *)
Inductive Processed (connection : Connection) (tx : TransactionRecord)
    (w : World) : World -> Prop :=
| pr_same : Processed connection tx w w
| pr_broadcast raw : Processed connection tx w (broadcast raw w)
| pr_submitted raw :
    status tx = CREATED ->
    Processed connection tx w
      (marked (signature tx) SUBMITTED (broadcast raw w))
| pr_processed :
    status tx <> PROCESSED ->
    Processed connection tx w (marked (signature tx) PROCESSED w)
| pr_confirmed :
    status tx <> CONFIRMED -> status tx <> FINALIZED ->
    Processed connection tx w (marked (signature tx) CONFIRMED w)
| pr_finalized :
    status tx <> FINALIZED ->
    Processed connection tx w
      (receipted tx (marked (signature tx) FINALIZED w))
| pr_failed :
    failureDetermined connection tx = true ->
    Processed connection tx w (marked (signature tx) FAILED w).

End FailureDetermination.

(** ** What an admission does to the world *)

Section AdmissionOutcomes.
Context {platform : Platform}.
Variable keypair : Keypair.

(** The record [relayTransaction] builds for a validated transaction, when
    the clock has been read [n] times before. *)
Definition acceptedRecord (id : string) (raw : list byte)
    (vSender vRecipient : string) (vAmount : N) (height : Z) (n : nat)
  : TransactionRecord :=
  {| signature := id;
     serializedTransaction := base64_encode raw;
     sender := vSender;
     recipient := vRecipient;
     amount := vAmount;
     lastValidBlockHeight := height;
     status := CREATED;
     createdAt := clock n;
     updatedAt := clock (S n) |}.

(** The world after the validator has been entered. *)
Definition validated (w : World) (t : Transaction) : World :=
  {| db := db w;
     trace := trace w ++ [EvValidateTransaction t];
     ticks := ticks w |}.

(** The four ways a call of [relayTransaction] ends. *)
Inductive Admission (s : string) (height : Z) (w : World)
  : RelayResult -> World -> Prop :=
| adm_malformed message :
    Transaction_from (base64_decode s) = Throw message ->
    Admission s height w (relayFailure message) w
| adm_rejected t error :
    Transaction_from (base64_decode s) = Return t ->
    Admission s height w (relayFailure error) (validated w t)
| adm_existing t vs vr va signed sig :
    Transaction_from (base64_decode s) = Return t ->
    validateTransaction keypair (db w) t = Return (Valid vs vr va) ->
    Transaction_partialSign t keypair = Return signed ->
    signatureMissing signed = false ->
    senderSignature signed = Some sig ->
    Db.getTransaction (db w) (base64_encode sig) <> None ->
    Admission s height w (relaySuccess (base64_encode sig)) (validated w t)
| adm_stored t vs vr va signed sig raw :
    Transaction_from (base64_decode s) = Return t ->
    validateTransaction keypair (db w) t = Return (Valid vs vr va) ->
    Transaction_partialSign t keypair = Return signed ->
    signatureMissing signed = false ->
    senderSignature signed = Some sig ->
    Db.getTransaction (db w) (base64_encode sig) = None ->
    let record :=
      acceptedRecord (base64_encode sig) raw vs vr va height (ticks w) in
    Admission s height w (relaySuccess (base64_encode sig))
      {| db := Db.addTransaction (db w) record;
         trace := trace w
                  ++ [EvValidateTransaction t; EvAddTransaction record];
         ticks := S (S (ticks w)) |}.

End AdmissionOutcomes.

Section MintVocabulary.
Context {platform : Platform}.

(** The account creation targets the USDC account of its owner. *)
Definition createsUsdcAccount (t : Transaction) : Prop :=
  exists owner target,
    createAtaOwner t = Some owner
    /\ createAtaTarget t = Some target
    /\ getAssociatedTokenAddressSync USDC_MINT owner = Return target.

End MintVocabulary.

(** ** Invariants of runs *)

Definition terminal (s : TransactionStatus) : bool :=
  Db.includes Db.terminalStates s.

(** The trace accounts for the terminal states: a receipt has been sent
    for exactly the finalized records and a mark [FAILED] has been written
    for exactly the failed ones, once each. *)
Definition accounted (w : World) : Prop :=
  wellKeyed (db w)
  /\ forall id,
       occurrences (isReceiptFor id) (trace w)
       = match statusOf w id with Some FINALIZED => 1 | _ => 0 end
       /\ occurrences (isFailedMarkFor id) (trace w)
          = match statusOf w id with Some FAILED => 1 | _ => 0 end.

(** Nothing is ever removed: users stay registered, records stay
    stored. *)
Definition retains (w w' : World) : Prop :=
  (forall pk, Db.isUserRegistered (db w) pk = true ->
              Db.isUserRegistered (db w') pk = true)
  /\ (forall id, Db.getTransaction (db w) id <> None ->
                 Db.getTransaction (db w') id <> None).

(** The records of a snapshot are the stored ones, and none is
    terminal. *)
Definition live (w : World) (txs : list TransactionRecord) : Prop :=
  forall tx, In tx txs ->
    Db.getTransaction (db w) (signature tx) = Some tx
    /\ terminal (status tx) = false.

(** The two reasons that name compliance. *)
Definition complianceReason (e : string) : bool :=
  String.eqb e "Sender is not compliant"
  || String.eqb e "Recipient is not compliant".

(** ** The idempotence of admission as the specification words it *)

Section Readmission.
Context {platform : Platform}.
Variable keypair : Keypair.

(** Submitting the same text again after a successful admission returns
    the same identifier, leaves one record under it and does not enter the
    validator again. *)
Definition resubmitsWithoutValidating (s : string) (height : Z) (w : World)
  : Prop :=
  forall r1 w1 r2 w2,
    relayTransaction keypair s height w = (Return r1, w1) ->
    success r1 = true ->
    relayTransaction keypair s height w1 = (Return r2, w2) ->
    r2 = r1
    /\ (forall id, transactionId r1 = Some id -> storedUnder w2 id = 1)
    /\ occurrences isValidation (trace w2)
       = occurrences isValidation (trace w1).

End Readmission.

(** ** workflow.ts: the timer of the processor *)

(** The interval timers of the process: the active ones with their period,
    and the identifier the next [setInterval] returns. *)
Record Timers : Type := mkTimers {
  active : list (nat * Z);
  nextTimer : nat
}.

Definition setInterval (intervalMs : Z) (ts : Timers) : nat * Timers :=
  (nextTimer ts,
   {| active := (nextTimer ts, intervalMs) :: active ts;
      nextTimer := S (nextTimer ts) |}).

Definition clearInterval (id : nat) (ts : Timers) : Timers :=
  {| active := filter (fun t => negb (Nat.eqb (fst t) id)) (active ts);
     nextTimer := nextTimer ts |}.

(** The fields [running] and [intervalId] of a [WorkflowProcessor]. *)
Record WorkflowProcessor : Type := mkWorkflowProcessor {
  running : bool;
  intervalId : option nat
}.

Definition newWorkflowProcessor : WorkflowProcessor :=
  {| running := false; intervalId := None |}.

Definition start (intervalMs : Z) (p : WorkflowProcessor) (ts : Timers)
  : WorkflowProcessor * Timers :=
  if running p then (p, ts)
  else
    let (id, ts') := setInterval intervalMs ts in
    ({| running := true; intervalId := Some id |}, ts').

Definition stop (p : WorkflowProcessor) (ts : Timers)
  : WorkflowProcessor * Timers :=
  match intervalId p with
  | Some id => ({| running := false; intervalId := None |}, clearInterval id ts)
  | None => ({| running := false; intervalId := intervalId p |}, ts)
  end.

Inductive TimerCall : Type :=
| CallStart (intervalMs : Z)
| CallStop.

Definition timerCall (c : TimerCall) (s : WorkflowProcessor * Timers)
  : WorkflowProcessor * Timers :=
  match c with
  | CallStart ms => start ms (fst s) (snd s)
  | CallStop => stop (fst s) (snd s)
  end.

Definition timerCalls (cs : list TimerCall) (s : WorkflowProcessor * Timers)
  : WorkflowProcessor * Timers :=
  fold_left (fun s c => timerCall c s) cs s.

(** The timers of a processor: the active ones it holds in [intervalId]. *)
Definition heldTimers (s : WorkflowProcessor * Timers) : list (nat * Z) :=
  match intervalId (fst s) with
  | Some id => filter (fun t => Nat.eqb (fst t) id) (active (snd s))
  | None => []
  end.

(** ** client.ts: the polling loop *)

Definition maxAttempts : nat := 60.

(** How [pollTransactionStatus] ends. *)
Inductive PollEnd : Type :=
| PollNotFound
| PollSucceeded (st : TransactionStatus)
| PollFailed
| PollStopped
| PollThrew (message : string).

(** The function [poll]: [attempts] is the counter before the call,
    [relayerAt n] the world of the relayer when the n-th status query is
    made, and the result carries the counter at the end.  The delays
    between the calls are not modelled; [fuel] bounds the re-arming of the
    timer. *)
Fixpoint poll (relayerAt : nat -> World) (id : string) (attempts fuel : nat)
  : option (PollEnd * nat) :=
  match fuel with
  | O => None
  | S fuel' =>
    let attempts := S attempts in
    match fst (getTransactionStatus id (relayerAt attempts)) with
    | Throw message => Some (PollThrew message, attempts)
    | Return (None, _) => Some (PollNotFound, attempts)
    | Return (Some st, _) =>
      if TransactionStatus_eqb st CONFIRMED || TransactionStatus_eqb st FINALIZED
      then Some (PollSucceeded st, attempts)
      else if TransactionStatus_eqb st FAILED
      then Some (PollFailed, attempts)
      else if Nat.leb maxAttempts attempts
      then Some (PollStopped, attempts)
      else poll relayerAt id attempts fuel'
    end
  end.

Definition pollTransactionStatus (relayerAt : nat -> World) (id : string)
  : option (PollEnd * nat) :=
  poll relayerAt id 0 maxAttempts.

(** A status that lets the client poll again. *)
Definition pending (st : TransactionStatus) : bool :=
  match st with
  | CREATED | SUBMITTED | PROCESSED => true
  | _ => false
  end.

(** ** The transaction the client builds *)

(** The transaction of [Client.transfer] as the relayer receives it: the
    two instructions with the account orders and the data layouts the
    validators document, the relayer as fee payer, the sender's signature
    in second place. *)
Definition builtTransfer {platform : Platform} (relayer senderPk recipientPk
    senderAta recipientAta : PublicKey) (amountBytes : list byte)
    (decimals : byte) (senderSig : list byte) (blockhash : string)
  : Transaction :=
  {| signatures :=
       [ {| sigPublicKey := relayer; sigSignature := None |};
         {| sigPublicKey := senderPk; sigSignature := Some senderSig |} ];
     feePayer := Some relayer;
     instructions :=
       [ {| keys :=
              [ {| pubkey := relayer; isSigner := true; isWritable := true |};
                {| pubkey := recipientAta; isSigner := false; isWritable := true |};
                {| pubkey := recipientPk; isSigner := false; isWritable := false |};
                {| pubkey := USDC_MINT; isSigner := false; isWritable := false |};
                {| pubkey := "11111111111111111111111111111111";
                   isSigner := false; isWritable := false |};
                {| pubkey := TOKEN_PROGRAM_ID;
                   isSigner := false; isWritable := false |} ];
            programId := ASSOCIATED_TOKEN_PROGRAM_ID;
            data := [x01] |};
         {| keys :=
              [ {| pubkey := senderAta; isSigner := false; isWritable := true |};
                {| pubkey := USDC_MINT; isSigner := false; isWritable := false |};
                {| pubkey := recipientAta; isSigner := false; isWritable := true |};
                {| pubkey := senderPk; isSigner := true; isWritable := false |} ];
            programId := TOKEN_PROGRAM_ID;
            data := (x0c :: amountBytes ++ [decimals])%list |} ];
     recentBlockhash := Some blockhash |}.

(** ** More vocabulary *)




(** Two records that differ at most in [status] and [updatedAt]. *)
Definition sameTransfer (a b : TransactionRecord) : Prop :=
  signature a = signature b
  /\ serializedTransaction a = serializedTransaction b
  /\ sender a = sender b
  /\ recipient a = recipient b
  /\ amount a = amount b
  /\ lastValidBlockHeight a = lastValidBlockHeight b
  /\ createdAt a = createdAt b.

(** The identifiers of the active timers are below the next one. *)
Definition timersFresh (ts : Timers) : Prop :=
  forall t, In t (active ts) -> fst t < nextTimer ts.

(** The state of a processor and the timers after calls of [start] and
    [stop], relative to the timers [base] that were active before. *)
Definition timerState (base : list (nat * Z)) (s : WorkflowProcessor * Timers)
  : Prop :=
  (forall t, In t base -> fst t < nextTimer (snd s))
  /\ ((running (fst s) = false /\ intervalId (fst s) = None
       /\ active (snd s) = base)
      \/ (exists id ms,
            running (fst s) = true /\ intervalId (fst s) = Some id
            /\ id < nextTimer (snd s)
            /\ (forall t, In t base -> fst t <> id)
            /\ active (snd s) = (id, ms) :: base)).

(** Every record of [w] is still stored in [w'] under the same identifier,
    the same but for [status] and [updatedAt]. *)
Definition keepsTransfers (w w' : World) : Prop :=
  forall id r, Db.getTransaction (db w) id = Some r ->
    exists r', Db.getTransaction (db w') id = Some r' /\ sameTransfer r r'.

(** ** Cycles that overlap

    [start] arms [setInterval] with a callback that nobody awaits: a new
    cycle takes its snapshot when the timer fires, whether or not the
    cycles before it have finished, and the calls of [processTransaction]
    of the cycles in flight interleave at their [await]s.  In every path
    of [processTransaction] the reads of [tx.status] and the writes come
    after the last [await] of the call; what is read before
    ([serializedTransaction], [lastValidBlockHeight], [signature]) never
    changes.  So a call acts on the world in one piece, at the moment the
    node has given its last answer, on the record as it is then.

    A cycle in flight is the rest of its snapshot. *)
Record Scheduler : Type := mkScheduler {
  world : World;
  inflight : list (list TransactionRecord)
}.

(** The records the cycles in flight have still to handle. *)
Definition waiting (s : Scheduler) : list TransactionRecord :=
  concat (inflight s).

Definition idle (s : Scheduler) : bool :=
  match waiting s with [] => true | _ :: _ => false end.

Fixpoint replaceAt {A : Type} (n : nat) (x : A) (l : list A) : list A :=
  match l, n with
  | [], _ => []
  | _ :: rest, O => x :: rest
  | y :: rest, S n' => y :: replaceAt n' x rest
  end.

(** What happens next: an action of a run (a registration, an admission,
    or a whole cycle that nothing interrupts), the timer firing, or the
    node answering the call a cycle in flight is waiting for. *)
Inductive Move : Type :=
| MvAct (a : Action)
| MvTick
| MvAdvance (cycle : nat) (connection : Connection).

Definition startsCycle (m : Move) : bool :=
  match m with
  | MvTick | MvAct (ActCycle _) => true
  | _ => false
  end.

Section Scheduling.
Context {platform : Platform}.
Variable keypair : Keypair.

(** The cycle handles the next record of its snapshot, in the [try] of
    the loop. *)
Definition advance (cycle : nat) (connection : Connection) (s : Scheduler)
  : Scheduler :=
  match nth_error (inflight s) cycle with
  | Some (tx :: rest) =>
      {| world := snd (attempt (fun _ => connection) tx (world s));
         inflight := replaceAt cycle rest (inflight s) |}
  | _ => s
  end.

Definition move (m : Move) (s : Scheduler) : Scheduler :=
  match m with
  | MvAct a => {| world := step keypair a (world s); inflight := inflight s |}
  | MvTick =>
      {| world := world s;
         inflight :=
           inflight s ++ [Db.getNonTerminalTransactions (db (world s))] |}
  | MvAdvance cycle connection => advance cycle connection s
  end.

Definition schedule (ms : list Move) (s : Scheduler) : Scheduler :=
  fold_left (fun s m => move m s) ms s.

(** No cycle starts while another has records left to handle. *)
Fixpoint oneCycleAtATime (ms : list Move) (s : Scheduler) : bool :=
  match ms with
  | [] => true
  | m :: rest =>
      (if startsCycle m then idle s else true)
      && oneCycleAtATime rest (move m s)
  end.

End Scheduling.

Definition initialScheduler : Scheduler :=
  {| world := initialWorld; inflight := [] |}.

Definition isFinalizedMarkFor (id : string) (e : Event) : bool :=
  match e with
  | EvUpdateTransactionStatus sig FINALIZED => String.eqb sig id
  | _ => false
  end.

(** Receipts and writes of [FINALIZED] go together: as many receipts as
    writes for every identifier, and every receipt carries the state
    [FINALIZED] and the transfer of the record stored under its
    signature. *)
Definition receiptsFollowFinalization (w : World) : Prop :=
  (forall id, occurrences (isReceiptFor id) (trace w)
              = occurrences (isFinalizedMarkFor id) (trace w))
  /\ forall r, In (EvSendReceipt r) (trace w) ->
       status r = FINALIZED
       /\ exists live, Db.getTransaction (db w) (signature r) = Some live
                       /\ sameTransfer r live.

(** The invariant of the schedules in which cycles do not overlap: the
    trace accounts for the terminal states, and the records still to be
    handled are stored as the snapshot has them, none terminal, no
    signature twice. *)
Definition settled (s : Scheduler) : Prop :=
  accounted (world s)
  /\ NoDup (map signature (waiting s))
  /\ live (world s) (waiting s).

(** More nodes for the concrete platform. *)
Module Scenario.

(** A node that does not know the transaction and says its blockhash is
    still valid; [sent] is its answer to the broadcast. *)
Definition unknownValid (sent : Outcome string) : Connection :=
  {| getSignatureStatuses := fun _ _ => Return None;
     isBlockhashValid := fun _ => Return true;
     sendRawTransaction := fun _ => sent;
     getEpochInfo := Return {| blockHeight := Some 0%Z |};
     getTransaction := fun _ => Return None |}.

(** A node whose status query fails. *)
Definition unreachable : Connection :=
  {| getSignatureStatuses := fun _ _ => Throw "fetch failed";
     isBlockhashValid := fun _ => Throw "fetch failed";
     sendRawTransaction := fun _ => Throw "fetch failed";
     getEpochInfo := Throw "fetch failed";
     getTransaction := fun _ => Throw "fetch failed" |}.

End Scenario.

(** ** Proof tools *)

Ltac head_scrutinee t :=
  lazymatch t with
  | context [match ?x with _ => _ end] => head_scrutinee x
  | _ => t
  end.

(** Case analysis on the first thing the goal is waiting for. *)
Ltac split_head :=
  match goal with
  | |- context [match ?x with _ => _ end] =>
      let y := head_scrutinee x in
      destruct y eqn:?; cbn beta iota; cbn [db trace ticks fst snd] in *
  end.

Ltac inv_return :=
  repeat match goal with
  | H : Return _ = Return _ |- _ => inversion H; clear H; subst
  | H : Invalid _ = Invalid _ |- _ => inversion H; clear H; subst
  | H : Valid _ _ _ = Valid _ _ _ |- _ => inversion H; clear H; subst
  | H : AtaInvalid _ = AtaInvalid _ |- _ => inversion H; clear H; subst
  | H : AtaValid _ = AtaValid _ |- _ => inversion H; clear H; subst
  | H : (_, _) = (_, _) |- _ => inversion H; clear H; subst
  | H : Some _ = Some _ |- _ => inversion H; clear H; subst
  end.

Ltac unfold_m :=
  unfold tryCatch, bind, lift, gets, emit, ret, throw, newDate,
    db_addTransaction, db_updateTransactionStatus, deref, sendReceipt in *.

(** ** Facts about [JsMap] *)

Module JsMapFacts.

Section Facts.
Context {V : Type}.
Implicit Types (m : JsMap.t V) (k : string) (v : V).

Lemma get_set_same m k v : JsMap.get (JsMap.set m k v) k = Some v.
Proof.
  induction m as [|[k' v'] rest IH]; simpl.
  - now rewrite String.eqb_refl.
  - destruct (String.eqb k' k) eqn:E; simpl; rewrite E; auto.
Qed.

Lemma get_set_other m k k' v :
  k <> k' -> JsMap.get (JsMap.set m k v) k' = JsMap.get m k'.
Proof.
  intros Hne. induction m as [|[k0 v0] rest IH]; simpl.
  - destruct (String.eqb k k') eqn:E; auto.
    apply String.eqb_eq in E. contradiction.
  - destruct (String.eqb k0 k) eqn:E; simpl.
    + apply String.eqb_eq in E. subst k0.
      destruct (String.eqb k k') eqn:E'; auto.
      apply String.eqb_eq in E'. contradiction.
    + now rewrite IH.
Qed.

Lemma get_In m k v : JsMap.get m k = Some v -> In (k, v) m.
Proof.
  induction m as [|[k' v'] rest IH]; simpl; [discriminate|].
  destruct (String.eqb k' k) eqn:E; intros H.
  - apply String.eqb_eq in E. inversion H. subst. now left.
  - right. auto.
Qed.

Lemma get_None_keys m k : JsMap.get m k = None -> ~ In k (JsMap.keys m).
Proof.
  induction m as [|[k' v'] rest IH]; simpl; [tauto|].
  destruct (String.eqb k' k) eqn:E; [discriminate|].
  intros H [Hk|Hk]; [|now apply IH].
  subst. now rewrite String.eqb_refl in E.
Qed.

Lemma get_Some_keys m k v : JsMap.get m k = Some v -> In k (JsMap.keys m).
Proof.
  intros H. apply get_In in H. now apply (in_map fst) in H.
Qed.

Lemma In_get m k v :
  NoDup (JsMap.keys m) -> In (k, v) m -> JsMap.get m k = Some v.
Proof.
  induction m as [|[k' v'] rest IH]; simpl; [tauto|].
  intros Hnd [Heq|Hin].
  - inversion Heq. subst. now rewrite String.eqb_refl.
  - inversion Hnd as [|? ? Hnotin Hnd']. subst.
    destruct (String.eqb k' k) eqn:E.
    + apply String.eqb_eq in E. subst k'.
      exfalso. apply Hnotin. now apply (in_map fst) in Hin.
    + auto.
Qed.

Lemma keys_set_present m k v v0 :
  JsMap.get m k = Some v0 -> JsMap.keys (JsMap.set m k v) = JsMap.keys m.
Proof.
  induction m as [|[k' v'] rest IH]; simpl; [discriminate|].
  destruct (String.eqb k' k) eqn:E; simpl; auto.
  intros H. f_equal. auto.
Qed.

Lemma keys_set_absent m k v :
  JsMap.get m k = None -> JsMap.keys (JsMap.set m k v) = (JsMap.keys m ++ [k])%list.
Proof.
  induction m as [|[k' v'] rest IH]; simpl; auto.
  destruct (String.eqb k' k) eqn:E; [discriminate|].
  intros H. simpl. f_equal. auto.
Qed.

Lemma In_set m k v k' v' :
  In (k', v') (JsMap.set m k v) -> (k' = k /\ v' = v) \/ In (k', v') m.
Proof.
  induction m as [|[k0 v0] rest IH]; simpl.
  - intros [H|[]]. inversion H. auto.
  - destruct (String.eqb k0 k) eqn:E; simpl.
    + apply String.eqb_eq in E. subst k0.
      intros [H|H]; [inversion H; auto | auto].
    + intros [H|H]; [auto | destruct (IH H); auto].
Qed.

End Facts.

End JsMapFacts.

(** ** The database *)

Section DbFacts.

Lemma updateTransactionStatus_get_same d sig st now r :
  Db.getTransaction d sig = Some r ->
  Db.getTransaction (Db.updateTransactionStatus d sig st now) sig
  = Some {| signature := signature r;
            serializedTransaction := serializedTransaction r;
            sender := sender r;
            recipient := recipient r;
            amount := amount r;
            lastValidBlockHeight := lastValidBlockHeight r;
            status := st;
            createdAt := createdAt r;
            updatedAt := now |}.
Proof.
  unfold Db.getTransaction, Db.updateTransactionStatus. intros H.
  rewrite H. cbn [transactions]. apply JsMapFacts.get_set_same.
Qed.

Lemma updateTransactionStatus_get_other d sig st now id :
  sig <> id ->
  Db.getTransaction (Db.updateTransactionStatus d sig st now) id
  = Db.getTransaction d id.
Proof.
  unfold Db.getTransaction, Db.updateTransactionStatus. intros H.
  destruct (JsMap.get (transactions d) sig); [|reflexivity].
  cbn [transactions]. now apply JsMapFacts.get_set_other.
Qed.

Lemma updateTransactionStatus_users d sig st now :
  users (Db.updateTransactionStatus d sig st now) = users d.
Proof.
  unfold Db.updateTransactionStatus.
  now destruct (JsMap.get (transactions d) sig).
Qed.

Lemma updateTransactionStatus_keys d sig st now :
  JsMap.keys (transactions (Db.updateTransactionStatus d sig st now))
  = JsMap.keys (transactions d).
Proof.
  unfold Db.updateTransactionStatus.
  destruct (JsMap.get (transactions d) sig) eqn:E; [|reflexivity].
  cbn [transactions]. eapply JsMapFacts.keys_set_present. eassumption.
Qed.

Lemma updateTransactionStatus_wellKeyed d sig st now :
  wellKeyed d -> wellKeyed (Db.updateTransactionStatus d sig st now).
Proof.
  intros [Hnd Hkey]. split.
  - now rewrite updateTransactionStatus_keys.
  - unfold Db.updateTransactionStatus.
    destruct (JsMap.get (transactions d) sig) eqn:E; [|assumption].
    cbn [transactions]. intros k r Hin.
    apply JsMapFacts.In_set in Hin. destruct Hin as [[-> ->]|Hin]; auto.
    cbn [signature]. apply Hkey. now apply JsMapFacts.get_In.
Qed.

Lemma addTransaction_get_other d record id :
  signature record <> id ->
  Db.getTransaction (Db.addTransaction d record) id = Db.getTransaction d id.
Proof.
  unfold Db.getTransaction, Db.addTransaction. intros H.
  destruct (negb _); [|reflexivity].
  cbn [transactions]. now apply JsMapFacts.get_set_other.
Qed.

Lemma addTransaction_get_new d record :
  Db.getTransaction d (signature record) = None ->
  Db.getTransaction (Db.addTransaction d record) (signature record)
  = Some record.
Proof.
  unfold Db.getTransaction, Db.addTransaction, JsMap.has. intros H.
  rewrite H. cbn [negb transactions]. apply JsMapFacts.get_set_same.
Qed.

Lemma addTransaction_wellKeyed d record :
  wellKeyed d -> wellKeyed (Db.addTransaction d record).
Proof.
  intros [Hnd Hkey]. unfold Db.addTransaction, JsMap.has.
  destruct (JsMap.get (transactions d) (signature record)) eqn:E;
    cbn [negb]; [now split|].
  split; cbn [transactions].
  - rewrite JsMapFacts.keys_set_absent by assumption.
    apply NoDup_app; [assumption|repeat constructor; simpl; tauto|].
    intros k Hk [<-|[]]. now apply JsMapFacts.get_None_keys in E.
  - intros k r Hin. apply JsMapFacts.In_set in Hin.
    destruct Hin as [[-> ->]|Hin]; auto.
Qed.

Lemma wellKeyed_get_signature d id r :
  wellKeyed d -> Db.getTransaction d id = Some r -> signature r = id.
Proof.
  intros [_ Hkey] H. apply Hkey. now apply JsMapFacts.get_In.
Qed.

End DbFacts.

(** ** The validators *)

Section ValidatorFacts.
Context {platform : Platform}.
Variable keypair : Keypair.

Lemma validateCreateAtaInstruction_reason ix e :
  validateCreateAtaInstruction ix = Return (AtaInvalid e) ->
  complianceReason e = false.
Proof.
  unfold validateCreateAtaInstruction, bindO.
  repeat split_head; intros H; try discriminate; inv_return; reflexivity.
Qed.

Lemma validateTransferInstruction_reason ix r e :
  validateTransferInstruction ix r = Return (Invalid e) ->
  complianceReason e = false.
Proof.
  unfold validateTransferInstruction, bindO.
  repeat split_head; intros H; try discriminate; inv_return; reflexivity.
Qed.

Lemma validateTransaction_reason d t e :
  validateTransaction keypair d t = Return (Invalid e) ->
  complianceReason e = false.
Proof.
  unfold validateTransaction, bindO.
  repeat split_head; intros H; try discriminate; inv_return;
    try reflexivity;
    eauto using validateCreateAtaInstruction_reason,
                validateTransferInstruction_reason.
Qed.

Lemma validateTransaction_count d t :
  length (instructions t) <> 2 ->
  validateTransaction keypair d t
  = Return (Invalid ("Expected 2 instructions, got "
                     ++ nat_to_string (length (instructions t)))).
Proof.
  intros Hn. unfold validateTransaction.
  destruct (Nat.eqb (length (instructions t)) 2) eqn:E; [|reflexivity].
  apply Nat.eqb_eq in E. contradiction.
Qed.

Lemma validateCreateAtaInstruction_valid ix target :
  validateCreateAtaInstruction ix = Return (AtaValid target) ->
  option_map pubkey (nth_error (keys ix) 1) = Some target
  /\ option_map pubkey (nth_error (keys ix) 3) = Some USDC_MINT.
Proof.
  unfold validateCreateAtaInstruction, bindO, at_index.
  repeat split_head; intros H; try discriminate; inv_return.
  split; [reflexivity|]. simpl. f_equal.
  match goal with
  | E : negb (PublicKey_equals _ _) = false |- _ =>
      apply negb_false_iff in E; now apply String.eqb_eq in E
  end.
Qed.

Lemma validateTransferInstruction_valid ix r vs vr va :
  validateTransferInstruction ix r = Return (Valid vs vr va) ->
  vr = r /\ option_map pubkey (nth_error (keys ix) 1) = Some USDC_MINT.
Proof.
  unfold validateTransferInstruction, bindO, at_index.
  repeat split_head; intros H; try discriminate; inv_return.
  split; [reflexivity|]. simpl. f_equal.
  match goal with
  | E : negb (PublicKey_equals _ USDC_MINT) = false |- _ =>
      apply negb_false_iff in E; now apply String.eqb_eq in E
  end.
Qed.

(** What an accepted transaction looks like. *)
Lemma validateTransaction_valid d t vs vr va :
  validateTransaction keypair d t = Return (Valid vs vr va) ->
  transferMint t = Some USDC_MINT
  /\ createAtaMint t = Some USDC_MINT
  /\ createAtaOwner t = Some vr
  /\ (exists target,
         createAtaTarget t = Some target
         /\ getAssociatedTokenAddressSync USDC_MINT vr = Return target)
  /\ unexpectedSigner [kpPublicKey keypair; vs] (signatures t) = None.
Proof.
  unfold validateTransaction, getRecipientFromCreateAta, bindO, at_index.
  unfold transferMint, createAtaMint, createAtaOwner, createAtaTarget, accountAt.
  repeat split_head; intros H; try discriminate; inv_return.
  repeat match goal with
  | E : validateCreateAtaInstruction _ = Return (AtaValid _) |- _ =>
      apply validateCreateAtaInstruction_valid in E; destruct E
  | E : validateTransferInstruction _ _ = Return (Valid _ _ _) |- _ =>
      apply validateTransferInstruction_valid in E; destruct E; subst
  end.
  repeat split; auto.
  eexists. split; [eassumption|].
  match goal with
  | E : negb (PublicKey_equals ?x ?y) = false,
    G : getAssociatedTokenAddressSync _ _ = Return ?y |- _ =>
      apply negb_false_iff in E; apply String.eqb_eq in E; now subst
  end.
Qed.

(** The validator reads the database only to look users up: once it has
    accepted a transaction it accepts it again in every database that
    still has the users. *)
Lemma validateTransaction_users d d' t vs vr va :
  (forall pk, Db.isUserRegistered d pk = true ->
              Db.isUserRegistered d' pk = true) ->
  validateTransaction keypair d t = Return (Valid vs vr va) ->
  validateTransaction keypair d' t = Return (Valid vs vr va).
Proof.
  intros Hu. unfold validateTransaction, bindO.
  repeat split_head; intros H; try discriminate; inv_return;
    try reflexivity.
  all: repeat match goal with
       | E : negb (Db.isUserRegistered _ _) = false |- _ =>
           apply negb_false_iff in E; apply Hu in E; rewrite E in *
       end; discriminate.
Qed.

End ValidatorFacts.

(** ** The admission gate *)

Section GateFacts.
Context {platform : Platform}.
Variable keypair : Keypair.

Lemma relayTransaction_Admission s h w :
  match relayTransaction keypair s h w with
  | (Return r, w') => Admission keypair s h w r w'
  | (Throw _, _) => False
  end.
Proof.
  unfold relayTransaction, call_validateTransaction. unfold_m.
  repeat split_head.
  all: try (eapply adm_rejected; eassumption).
  all: try (eapply adm_malformed; eassumption).
  - eapply adm_existing; try eassumption. congruence.
  - rewrite <- app_assoc. cbn [app].
    eapply adm_stored; eassumption.
Qed.

Lemma relayTransaction_returns s h w :
  exists r w',
    relayTransaction keypair s h w = (Return r, w')
    /\ Admission keypair s h w r w'.
Proof.
  pose proof (relayTransaction_Admission s h w) as H.
  destruct (relayTransaction keypair s h w) as [[r|msg] w']; [|contradiction].
  eauto.
Qed.

Lemma relayTransaction_inv s h w r w' :
  relayTransaction keypair s h w = (Return r, w') ->
  Admission keypair s h w r w'.
Proof.
  intros E. pose proof (relayTransaction_Admission s h w) as H.
  now rewrite E in H.
Qed.

Lemma relayTransaction_invalid s h w t error :
  Transaction_from (base64_decode s) = Return t ->
  validateTransaction keypair (db w) t = Return (Invalid error) ->
  relayTransaction keypair s h w = (Return (relayFailure error), validated w t).
Proof.
  intros Hd Hv. unfold relayTransaction, call_validateTransaction. unfold_m.
  rewrite Hd. cbn beta iota. cbn [db]. now rewrite Hv.
Qed.

Lemma Admission_success s h w r w' :
  Admission keypair s h w r w' ->
  success r = true ->
  exists t vs vr va,
    Transaction_from (base64_decode s) = Return t
    /\ validateTransaction keypair (db w) t = Return (Valid vs vr va).
Proof.
  intros [] Hs; try discriminate; eauto 8.
Qed.

(** An admission that succeeds has found or stored the record under the
    text of the sender's signature. *)
Lemma Admission_success_stored s h w r w' :
  Admission keypair s h w r w' ->
  success r = true ->
  exists t vs vr va signed sig,
    Transaction_from (base64_decode s) = Return t
    /\ validateTransaction keypair (db w) t = Return (Valid vs vr va)
    /\ Transaction_partialSign t keypair = Return signed
    /\ signatureMissing signed = false
    /\ senderSignature signed = Some sig
    /\ r = relaySuccess (base64_encode sig)
    /\ Db.getTransaction (db w') (base64_encode sig) <> None
    /\ users (db w') = users (db w).
Proof.
  intros HA Hs.
  destruct HA as [| |t vs vr va signed sig Hd Hv Hp Hm Hsg Hex
                  |t vs vr va signed sig raw Hd Hv Hp Hm Hsg Hnone record];
    try discriminate.
  - exists t, vs, vr, va, signed, sig. repeat split; auto.
  - exists t, vs, vr, va, signed, sig. repeat split; auto; cbn [db].
    + assert (Hsig : signature record = base64_encode sig) by reflexivity.
      rewrite <- Hsig. rewrite addTransaction_get_new; [discriminate|].
      now rewrite Hsig.
    + unfold Db.addTransaction. now destruct (negb _).
Qed.

(** A transaction whose record is stored is validated and signed again,
    and then answered from the store. *)
Lemma relayTransaction_existing s h w t vs vr va signed sig :
  Transaction_from (base64_decode s) = Return t ->
  validateTransaction keypair (db w) t = Return (Valid vs vr va) ->
  Transaction_partialSign t keypair = Return signed ->
  signatureMissing signed = false ->
  senderSignature signed = Some sig ->
  Db.getTransaction (db w) (base64_encode sig) <> None ->
  relayTransaction keypair s h w
  = (Return (relaySuccess (base64_encode sig)), validated w t).
Proof.
  intros Hd Hv Hp Hm Hs Hex.
  unfold relayTransaction, call_validateTransaction. unfold_m.
  rewrite Hd. cbn beta iota. cbn [db]. rewrite Hv. cbn beta iota.
  rewrite Hp. cbn beta iota. rewrite Hm, Hs. cbn beta iota. cbn [db].
  destruct (Db.getTransaction (db w) (base64_encode sig)); [reflexivity|].
  congruence.
Qed.

Lemma Admission_failure s h w r w' :
  Admission keypair s h w r w' ->
  success r = false ->
  db w' = db w /\ exists reason, relayError r = Some reason.
Proof.
  intros [] Hs; try discriminate; cbn; eauto.
Qed.

Lemma unexpectedSigner_None expected sigs :
  unexpectedSigner expected sigs = None ->
  forall sig, In sig sigs -> In (sigPublicKey sig) expected.
Proof.
  unfold unexpectedSigner. intros H sig Hin.
  destruct (find _ sigs) eqn:E; [discriminate|].
  pose proof (find_none _ _ E _ Hin) as Hn. cbn beta in Hn.
  apply negb_false_iff in Hn. apply existsb_exists in Hn.
  destruct Hn as (x & Hx & Heq). apply String.eqb_eq in Heq. now subst.
Qed.

(** Every signer of an accepted transaction is the relayer or the
    sender. *)
Lemma accepted_signers_expected d t vs vr va :
  validateTransaction keypair d t = Return (Valid vs vr va) ->
  forall sig, In sig (signatures t) ->
    sigPublicKey sig = kpPublicKey keypair \/ sigPublicKey sig = vs.
Proof.
  intros H sig Hin. apply validateTransaction_valid in H.
  destruct H as (_ & _ & _ & _ & Hu).
  pose proof (unexpectedSigner_None _ _ Hu sig Hin) as Hs.
  cbn in Hs. intuition auto.
Qed.

(** C7.  A call of [relayTransaction] always returns a result, and a
    result that reports a rejection carries a reason and leaves the
    database as it was: nothing is stored for a rejected transaction. *)
Theorem rejected_admission_stores_nothing s h w :
  (exists r w', relayTransaction keypair s h w = (Return r, w'))
  /\ (forall r w',
         relayTransaction keypair s h w = (Return r, w') ->
         success r = false ->
         db w' = db w
         /\ transactionId r = None
         /\ exists reason, relayError r = Some reason).
Proof.
  split.
  - destruct (relayTransaction_returns s h w) as (r & w' & E & _). eauto.
  - intros r w' E Hs. apply relayTransaction_inv in E.
    destruct E; try discriminate; cbn; eauto.
Qed.

(** C8.  A decoded transaction whose number of instructions is not two is
    rejected with the reason "Expected 2 instructions, got n", whatever
    its instructions are, and nothing is stored. *)
Theorem wrong_instruction_count_rejected s h w t :
  Transaction_from (base64_decode s) = Return t ->
  length (instructions t) <> 2 ->
  relayTransaction keypair s h w
  = (Return (relayFailure ("Expected 2 instructions, got "
                           ++ nat_to_string (length (instructions t)))),
     validated w t).
Proof.
  intros Hd Hn. apply relayTransaction_invalid; [assumption|].
  now apply validateTransaction_count.
Qed.

(** C9.  A transaction whose transfer instruction declares a mint other
    than USDC, or whose account creation declares a mint other than USDC
    or targets another account than the USDC account of its owner, is
    never accepted by the validator, and the gate rejects it and stores
    nothing. *)
Theorem other_mint_rejected t :
  transferMint t <> Some USDC_MINT
  \/ createAtaMint t <> Some USDC_MINT
  \/ ~ createsUsdcAccount t ->
  (forall d vs vr va,
      validateTransaction keypair d t <> Return (Valid vs vr va))
  /\ (forall s h w r w',
         Transaction_from (base64_decode s) = Return t ->
         relayTransaction keypair s h w = (Return r, w') ->
         success r = false /\ db w' = db w).
Proof.
  intros Hmint.
  assert (Hv : forall d vs vr va,
             validateTransaction keypair d t <> Return (Valid vs vr va)).
  { intros d vs vr va H. apply validateTransaction_valid in H.
    destruct H as (Ht & Hc & Ho & (target & Htg & Hata) & _).
    destruct Hmint as [Hm|[Hm|Hm]]; try contradiction.
    apply Hm. exists vr, target. auto. }
  split; [exact Hv|].
  intros s h w r w' Hd E. apply relayTransaction_inv in E.
  destruct (success r) eqn:Hs.
  - destruct (Admission_success _ _ _ _ _ E Hs) as (t' & vs & vr & va & Hd' & H).
    rewrite Hd in Hd'. inversion Hd'. subst t'. now apply Hv in H.
  - split; [reflexivity|]. now apply (Admission_failure _ _ _ _ _ E).
Qed.

(** C10.  [isCompliant] answers [true] for every identity, and the
    validator never returns either of the two compliance rejections. *)
Theorem compliance_never_refuses :
  (forall d pk, Db.isCompliant d pk = true)
  /\ (forall d t,
         validateTransaction keypair d t
         <> Return (Invalid "Sender is not compliant")
         /\ validateTransaction keypair d t
            <> Return (Invalid "Recipient is not compliant")).
Proof.
  split; [reflexivity|].
  intros d t. split; intros H; apply validateTransaction_reason in H;
    discriminate.
Qed.

End GateFacts.

(** ** The workflow: one record *)

Section WorkflowFacts.
Context {platform : Platform}.

Lemma TransactionStatus_eqb_eq a b :
  TransactionStatus_eqb a b = true <-> a = b.
Proof. destruct a, b; simpl; split; intros; congruence. Qed.

Lemma TransactionStatus_eqb_neq a b :
  TransactionStatus_eqb a b = false <-> a <> b.
Proof. destruct a, b; simpl; split; intros; congruence. Qed.

Lemma db_updateTransactionStatus_run sig st w :
  db_updateTransactionStatus sig st w = (Return tt, marked sig st w).
Proof.
  unfold marked, db_updateTransactionStatus.
  now destruct (Db.getTransaction (db w) sig).
Qed.

Lemma handleExistingStatus_Processed connection tx c w :
  fst (handleExistingStatus tx c w) = Return tt
  /\ Processed connection tx w (snd (handleExistingStatus tx c w)).
Proof.
  unfold handleExistingStatus.
  destruct c as [c|]; [|split; [reflexivity|constructor]].
  repeat split_head; try (split; [reflexivity|constructor]).
  all: repeat match goal with
       | E : negb _ = true |- _ => apply negb_true_iff in E
       | E : _ && _ = true |- _ => apply andb_prop in E; destruct E
       | E : TransactionStatus_eqb _ _ = false |- _ =>
           apply TransactionStatus_eqb_neq in E
       end.
  all: unfold bind; rewrite ?db_updateTransactionStatus_run; cbn [fst snd].
  - split; [reflexivity|]. now apply pr_processed.
  - split; [reflexivity|]. now apply pr_confirmed.
  - split; [reflexivity|]. now apply pr_finalized.
Qed.

Lemma handleExpiredBlockhash_found connection tx sig w :
  heightReached connection tx && laterChecksEmptyOrFailed connection sig
  = false ->
  snd (handleExpiredBlockhash connection tx sig w) = w.
Proof.
  unfold laterChecksEmptyOrFailed, heightReached, finalizedHeight,
    handleExpiredBlockhash.
  unfold_m.
  repeat split_head; try reflexivity; cbn; discriminate.
Qed.

Lemma handleExpiredBlockhash_notFound connection tx sig w :
  heightReached connection tx && laterChecksEmptyOrFailed connection sig
  = true ->
  handleExpiredBlockhash connection tx sig w
  = (Return tt, marked (signature tx) FAILED w).
Proof.
  unfold laterChecksEmptyOrFailed, heightReached, finalizedHeight,
    handleExpiredBlockhash.
  unfold bind, lift, tryCatch, ret.
  repeat split_head; cbn; try discriminate; intros _;
    apply db_updateTransactionStatus_run.
Qed.

(** The guard of [handleExpiredBlockhash]: below the record's
    [lastValidBlockHeight] nothing is asked and nothing is written. *)
Lemma handleExpiredBlockhash_waits connection tx sig w info :
  getEpochInfo connection = Return info ->
  (finalizedHeight info < lastValidBlockHeight tx)%Z ->
  handleExpiredBlockhash connection tx sig w = (Return tt, w).
Proof.
  intros Hinfo Hlt. unfold handleExpiredBlockhash, bind, lift.
  rewrite Hinfo. cbn beta iota. fold (finalizedHeight info).
  apply Z.ltb_lt in Hlt. now rewrite Hlt.
Qed.

Lemma handleNullStatus_Processed connection tx t w sig :
  onChain tx = Some (sig, recentBlockhash t) ->
  answersNothing (getSignatureStatuses connection sig false) = true ->
  Processed connection tx w (snd (handleNullStatus connection tx t sig w)).
Proof.
  intros Hon Hnone. unfold handleNullStatus. unfold bind at 1. unfold lift at 1.
  destruct (isBlockhashValid connection (recentBlockhash t)) as [[|]|] eqn:Hv;
    cbn beta iota; try constructor.
  - unfold tryCatch, bind, lift, emit, ret.
    repeat (rewrite ?db_updateTransactionStatus_run; split_head);
      rewrite ?db_updateTransactionStatus_run; cbn [fst snd];
      try constructor.
    now apply TransactionStatus_eqb_eq.
  - destruct (heightReached connection tx
              && laterChecksEmptyOrFailed connection sig) eqn:Hnf.
    + rewrite handleExpiredBlockhash_notFound by assumption. cbn [snd].
      apply pr_failed. unfold failureDetermined, unknownAndExpired.
      now rewrite Hon, Hnone, Hv, Hnf.
    + rewrite handleExpiredBlockhash_found by assumption. constructor.
Qed.

Lemma processTransaction_Processed connection tx w :
  Processed connection tx w (snd (processTransaction connection tx w)).
Proof.
  unfold processTransaction. unfold bind at 1. unfold lift at 1.
  destruct (Transaction_from _) as [t|] eqn:Hd; cbn beta iota; [|constructor].
  destruct (Transaction_signature t) as [sig|] eqn:Hs; [|constructor].
  unfold bind at 1. unfold lift at 1.
  destruct (getSignatureStatuses connection (bs58_encode sig) false)
    as [[st|]|] eqn:Hq; cbn beta iota; try constructor.
  - apply handleExistingStatus_Processed.
  - apply handleNullStatus_Processed.
    + unfold onChain. now rewrite Hd, Hs.
    + now rewrite Hq.
Qed.

Lemma processTransaction_failed connection tx w :
  failureDetermined connection tx = true ->
  processTransaction connection tx w
  = (Return tt, marked (signature tx) FAILED w).
Proof.
  unfold failureDetermined, unknownAndExpired, onChain, processTransaction.
  unfold bind at 1. unfold lift at 1.
  destruct (Transaction_from _) as [t|]; cbn beta iota; [|discriminate].
  destruct (Transaction_signature t) as [sig|]; [|discriminate].
  unfold bind at 1. unfold lift at 1.
  destruct (getSignatureStatuses connection (bs58_encode sig) false)
    as [[st|]|]; cbn; try discriminate.
  unfold handleNullStatus. unfold bind at 1. unfold lift at 1.
  destruct (isBlockhashValid connection (recentBlockhash t)) as [[|]|];
    cbn; try discriminate.
  intros H. now apply handleExpiredBlockhash_notFound.
Qed.

(** When the node has no status for the signature, says that the blockhash
    is no longer valid and has finalized less than the record's
    [lastValidBlockHeight], processing the record changes nothing. *)
Lemma processTransaction_waits connection tx w info :
  unknownAndExpired connection tx = true ->
  getEpochInfo connection = Return info ->
  (finalizedHeight info < lastValidBlockHeight tx)%Z ->
  processTransaction connection tx w = (Return tt, w).
Proof.
  unfold unknownAndExpired, onChain, processTransaction.
  unfold bind at 1. unfold lift at 1.
  destruct (Transaction_from _) as [t|]; cbn beta iota; [|discriminate].
  destruct (Transaction_signature t) as [sig|]; [|discriminate].
  unfold bind at 1. unfold lift at 1.
  destruct (getSignatureStatuses connection (bs58_encode sig) false)
    as [[st|]|]; cbn; try discriminate.
  unfold handleNullStatus. unfold bind at 1. unfold lift at 1.
  destruct (isBlockhashValid connection (recentBlockhash t)) as [[|]|];
    cbn; try discriminate.
  intros _ Hinfo Hlt. now apply handleExpiredBlockhash_waits with info.
Qed.

End WorkflowFacts.

(** ** The workflow: what one record's processing preserves *)

Section WorldFacts.
Context {platform : Platform}.

Lemma occurrences_snoc p tr e :
  occurrences p (tr ++ [e]) = occurrences p tr + (if p e then 1 else 0).
Proof.
  unfold occurrences. rewrite filter_app, length_app. cbn [filter].
  now destruct (p e).
Qed.

Lemma marked_present sig st w r :
  Db.getTransaction (db w) sig = Some r ->
  marked sig st w
  = {| db := Db.updateTransactionStatus (db w) sig st (clock (ticks w));
       trace := trace w ++ [EvUpdateTransactionStatus sig st];
       ticks := S (ticks w) |}.
Proof.
  intros H. unfold marked, db_updateTransactionStatus. now rewrite H.
Qed.

Lemma receipted_live tx w r :
  Db.getTransaction (db w) (signature tx) = Some r ->
  receipted tx w
  = {| db := db w; trace := trace w ++ [EvSendReceipt r]; ticks := ticks w |}.
Proof.
  intros H. unfold receipted, bind, deref, gets, sendReceipt, emit.
  cbn. now rewrite H.
Qed.

Lemma statusOf_marked_same sig st w r :
  Db.getTransaction (db w) sig = Some r ->
  statusOf (marked sig st w) sig = Some st.
Proof.
  intros H. rewrite (marked_present _ _ _ _ H). unfold statusOf. cbn [db].
  now rewrite (updateTransactionStatus_get_same _ _ _ _ _ H).
Qed.

Lemma getTransaction_marked_other sig st w id :
  sig <> id ->
  Db.getTransaction (db (marked sig st w)) id = Db.getTransaction (db w) id.
Proof.
  intros H. unfold marked, db_updateTransactionStatus.
  destruct (Db.getTransaction (db w) sig); cbn [snd db]; [|reflexivity].
  now apply updateTransactionStatus_get_other.
Qed.

Lemma keys_marked sig st w :
  JsMap.keys (transactions (db (marked sig st w)))
  = JsMap.keys (transactions (db w)).
Proof.
  unfold marked, db_updateTransactionStatus.
  destruct (Db.getTransaction (db w) sig); cbn [snd db]; [|reflexivity].
  apply updateTransactionStatus_keys.
Qed.

Lemma users_marked sig st w : users (db (marked sig st w)) = users (db w).
Proof.
  unfold marked, db_updateTransactionStatus.
  destruct (Db.getTransaction (db w) sig); cbn [snd db]; [|reflexivity].
  apply updateTransactionStatus_users.
Qed.

Lemma eqb_neq_false (a b : string) : a <> b -> String.eqb a b = false.
Proof. intros H. now apply String.eqb_neq. Qed.

Lemma accounted_broadcast raw w : accounted w -> accounted (broadcast raw w).
Proof.
  intros [Hk Hc]. split; [exact Hk|]. intros id.
  unfold broadcast, emit. cbn [snd trace]. unfold statusOf. cbn [db].
  rewrite !occurrences_snoc. cbn. rewrite !Nat.add_0_r. apply Hc.
Qed.

Lemma accounted_marked sig st w tx :
  accounted w ->
  Db.getTransaction (db w) sig = Some tx ->
  terminal (status tx) = false ->
  st <> FINALIZED ->
  accounted (marked sig st w).
Proof.
  intros [Hk Hc] Hget Hterm Hst.
  rewrite (marked_present _ _ _ _ Hget). split; cbn [db trace].
  - now apply updateTransactionStatus_wellKeyed.
  - intros id. rewrite !occurrences_snoc. unfold statusOf. cbn [db].
    destruct (string_dec sig id) as [<-|Hne].
    + rewrite (updateTransactionStatus_get_same _ _ _ _ _ Hget).
      cbn [option_map status].
      destruct (Hc sig) as [Hr Hf]. unfold statusOf in Hr, Hf.
      rewrite Hget in Hr, Hf. cbn [option_map] in Hr, Hf.
      rewrite Hr, Hf. cbn [isReceiptFor isFailedMarkFor].
      rewrite String.eqb_refl.
      destruct (status tx); try discriminate; destruct st; cbn;
        solve [auto | congruence].
    + rewrite (updateTransactionStatus_get_other _ _ _ _ _ Hne).
      destruct (Hc id) as [Hr Hf]. unfold statusOf in Hr, Hf.
      rewrite Hr, Hf. cbn [isReceiptFor isFailedMarkFor].
      rewrite (eqb_neq_false _ _ Hne). destruct st; cbn; split; lia.
Qed.

Lemma accounted_finalized w tx :
  accounted w ->
  Db.getTransaction (db w) (signature tx) = Some tx ->
  terminal (status tx) = false ->
  accounted (receipted tx (marked (signature tx) FINALIZED w)).
Proof.
  intros [Hk Hc] Hget Hterm.
  pose proof (statusOf_marked_same _ FINALIZED _ _ Hget) as Hst.
  unfold statusOf in Hst.
  destruct (Db.getTransaction (db (marked (signature tx) FINALIZED w))
              (signature tx)) as [live|] eqn:Hlive; [|discriminate].
  rewrite (receipted_live _ _ _ Hlive).
  assert (Hsig : signature live = signature tx).
  { rewrite (marked_present _ _ _ _ Hget) in Hlive. cbn [db] in Hlive.
    rewrite (updateTransactionStatus_get_same _ _ _ _ _ Hget) in Hlive.
    inversion Hlive. reflexivity. }
  revert Hlive Hst. rewrite (marked_present _ _ _ _ Hget). cbn [db trace].
  intros Hlive Hst.
  split; cbn [db trace].
  - now apply updateTransactionStatus_wellKeyed.
  - intros id. rewrite !occurrences_snoc. unfold statusOf. cbn [db].
    cbn [isReceiptFor isFailedMarkFor]. rewrite Hsig.
    destruct (string_dec (signature tx) id) as [<-|Hne].
    + rewrite Hlive. cbn [option_map] in *. inversion Hst as [Hs]. rewrite Hs.
      destruct (Hc (signature tx)) as [Hr Hf]. unfold statusOf in Hr, Hf.
      rewrite Hget in Hr, Hf. cbn [option_map] in Hr, Hf.
      rewrite Hr, Hf, String.eqb_refl.
      destruct (status tx); try discriminate; cbn; split; lia.
    + rewrite (updateTransactionStatus_get_other _ _ _ _ _ Hne).
      destruct (Hc id) as [Hr Hf]. unfold statusOf in Hr, Hf.
      rewrite Hr, Hf. rewrite (eqb_neq_false _ _ Hne). cbn. split; lia.
Qed.

(** What the processing of a stored, non-terminal record keeps. *)
Lemma Processed_accounted connection tx w w' :
  accounted w ->
  Db.getTransaction (db w) (signature tx) = Some tx ->
  terminal (status tx) = false ->
  Processed connection tx w w' ->
  accounted w'
  /\ (forall id, signature tx <> id ->
                 Db.getTransaction (db w') id = Db.getTransaction (db w) id)
  /\ users (db w') = users (db w).
Proof.
  intros Hacc Hget Hterm HP.
  destruct HP.
  - auto.
  - split; [now apply accounted_broadcast|]. auto.
  - split; [|split].
    + eapply accounted_marked; try eassumption.
      * now apply accounted_broadcast.
      * discriminate.
    + intros id Hne. now rewrite getTransaction_marked_other.
    + now rewrite users_marked.
  - split; [|split].
    + eapply accounted_marked; try eassumption. discriminate.
    + intros id Hne. now rewrite getTransaction_marked_other.
    + now rewrite users_marked.
  - split; [|split].
    + eapply accounted_marked; try eassumption. discriminate.
    + intros id Hne. now rewrite getTransaction_marked_other.
    + now rewrite users_marked.
  - split; [|split].
    + now apply accounted_finalized.
    + intros id Hne. unfold receipted, bind, deref, gets, sendReceipt, emit.
      cbn [snd db]. now rewrite getTransaction_marked_other.
    + unfold receipted, bind, deref, gets, sendReceipt, emit.
      cbn [snd db]. now rewrite users_marked.
  - split; [|split].
    + eapply accounted_marked; try eassumption. discriminate.
    + intros id Hne. now rewrite getTransaction_marked_other.
    + now rewrite users_marked.
Qed.

End WorldFacts.

(** ** The workflow: one cycle *)

Section CycleFacts.
Context {platform : Platform}.
Variable ledger : string -> Connection.

Lemma Processed_keys connection tx w w' :
  Processed connection tx w w' ->
  JsMap.keys (transactions (db w')) = JsMap.keys (transactions (db w)).
Proof.
  intros []; unfold receipted, broadcast, bind, deref, gets, sendReceipt, emit;
    cbn [snd db]; rewrite ?keys_marked; reflexivity.
Qed.

Lemma attempt_run tx w :
  Db.getTransaction (db w) (signature tx) = Some tx ->
  attempt ledger tx w
  = (Return tt, snd (processTransaction (ledger (signature tx)) tx w)).
Proof.
  intros H. unfold attempt, tryCatch, bind, deref, gets, ret. rewrite H.
  now destruct (processTransaction _ tx w) as [[[]|msg] w'].
Qed.

Lemma attempt_returns tx w : fst (attempt ledger tx w) = Return tt.
Proof.
  unfold attempt, tryCatch, bind, deref, gets, ret.
  now destruct (processTransaction _ _ w) as [[[]|msg] w'].
Qed.

Lemma forEach_cons tx txs w :
  forEach (tx :: txs) (attempt ledger) w
  = forEach txs (attempt ledger) (snd (attempt ledger tx w)).
Proof.
  cbn [forEach]. unfold bind. pose proof (attempt_returns tx w) as H.
  destruct (attempt ledger tx w) as [o w']. cbn in H. now subst o.
Qed.

Lemma NoDup_map_filter {A B : Type} (g : A -> B) (f : A -> bool) l :
  NoDup (map g l) -> NoDup (map g (filter f l)).
Proof.
  induction l as [|x l IH]; cbn; [auto|].
  intros H. inversion H as [|? ? Hnotin Hnd]. subst.
  destruct (f x); cbn; auto.
  constructor; auto. intros Hin. apply Hnotin.
  apply in_map_iff in Hin. destruct Hin as (y & Hy & Hin).
  apply filter_In in Hin. apply in_map_iff. exists y. tauto.
Qed.

Lemma wellKeyed_signatures d :
  wellKeyed d ->
  map signature (JsMap.values (transactions d)) = JsMap.keys (transactions d).
Proof.
  intros [_ Hkey]. unfold JsMap.values, JsMap.keys.
  induction (transactions d) as [|[k r] m IH]; cbn; [reflexivity|].
  f_equal.
  - apply Hkey. now left.
  - apply IH. intros k' r' Hin. apply Hkey. now right.
Qed.

(** The records a cycle works on: each is stored under its own signature,
    none is terminal and no signature occurs twice. *)
Lemma snapshot_spec d :
  wellKeyed d ->
  NoDup (map signature (Db.getNonTerminalTransactions d))
  /\ forall tx, In tx (Db.getNonTerminalTransactions d) ->
       Db.getTransaction d (signature tx) = Some tx
       /\ terminal (status tx) = false.
Proof.
  intros Hwk. unfold Db.getNonTerminalTransactions. split.
  - apply NoDup_map_filter. rewrite wellKeyed_signatures by assumption.
    apply Hwk.
  - intros tx Hin. apply filter_In in Hin. destruct Hin as [Hin Hnt].
    cbn beta in Hnt. apply negb_true_iff in Hnt.
    split; [|exact Hnt].
    unfold JsMap.values in Hin. apply in_map_iff in Hin.
    destruct Hin as ([k r] & Heq & Hin). cbn in Heq. subst r.
    destruct Hwk as [Hnd Hkey]. rewrite (Hkey _ _ Hin).
    now apply JsMapFacts.In_get.
Qed.

Lemma attempt_accounted tx w :
  accounted w ->
  Db.getTransaction (db w) (signature tx) = Some tx ->
  terminal (status tx) = false ->
  let w' := snd (attempt ledger tx w) in
  accounted w'
  /\ (forall id, signature tx <> id ->
                 Db.getTransaction (db w') id = Db.getTransaction (db w) id)
  /\ users (db w') = users (db w)
  /\ JsMap.keys (transactions (db w')) = JsMap.keys (transactions (db w)).
Proof.
  intros Hacc Hget Hterm. rewrite attempt_run by assumption. cbn [snd].
  pose proof (processTransaction_Processed (ledger (signature tx)) tx w) as HP.
  destruct (Processed_accounted _ _ _ _ Hacc Hget Hterm HP) as (H1 & H2 & H3).
  split; [exact H1|split; [exact H2|split; [exact H3|]]].
  now apply Processed_keys in HP.
Qed.

Lemma live_after tx txs w :
  NoDup (map signature (tx :: txs)) ->
  live w (tx :: txs) ->
  (forall id, signature tx <> id ->
     Db.getTransaction (db (snd (attempt ledger tx w))) id
     = Db.getTransaction (db w) id) ->
  live (snd (attempt ledger tx w)) txs.
Proof.
  intros Hnd Hlive Hframe tx' Hin.
  destruct (Hlive tx' (or_intror Hin)) as [Hget Hterm].
  split; [|assumption]. rewrite Hframe; [assumption|].
  inversion Hnd as [|? ? Hnotin _]. subst. intros Heq. apply Hnotin.
  rewrite Heq. now apply in_map.
Qed.

Lemma forEach_accounted txs : forall w,
  NoDup (map signature txs) ->
  accounted w ->
  live w txs ->
  let w' := snd (forEach txs (attempt ledger) w) in
  accounted w'
  /\ (forall id, ~ In id (map signature txs) ->
                 Db.getTransaction (db w') id = Db.getTransaction (db w) id)
  /\ users (db w') = users (db w)
  /\ JsMap.keys (transactions (db w')) = JsMap.keys (transactions (db w)).
Proof.
  induction txs as [|tx txs IH]; intros w Hnd Hacc Hlive.
  - cbn. auto.
  - rewrite forEach_cons.
    destruct (Hlive tx (or_introl eq_refl)) as [Hget Hterm].
    destruct (attempt_accounted tx w Hacc Hget Hterm) as (H1 & H2 & H3 & H4).
    assert (Hlive' : live (snd (attempt ledger tx w)) txs)
      by (eapply live_after; eassumption).
    inversion Hnd as [|? ? Hnotin Hnd']. subst.
    destruct (IH _ Hnd' H1 Hlive') as (I1 & I2 & I3 & I4).
    cbn zeta. split; [exact I1|split; [|split]].
    + intros id Hid. rewrite I2, H2; auto.
      * intros Heq. apply Hid. now left.
      * intros Hin. apply Hid. now right.
    + now rewrite I3.
    + now rewrite I4.
Qed.

(** The record of [tx0] after a cycle is what processing [tx0] made of
    it. *)
Lemma forEach_focus txs tx0 : forall w,
  NoDup (map signature txs) ->
  accounted w ->
  live w txs ->
  In tx0 txs ->
  exists w1,
    accounted w1
    /\ Db.getTransaction (db w1) (signature tx0) = Some tx0
    /\ Db.getTransaction (db (snd (forEach txs (attempt ledger) w)))
                         (signature tx0)
       = Db.getTransaction
           (db (snd (processTransaction (ledger (signature tx0)) tx0 w1)))
           (signature tx0).
Proof.
  induction txs as [|tx txs IH]; intros w Hnd Hacc Hlive Hin; [destruct Hin|].
  rewrite forEach_cons.
  destruct (Hlive tx (or_introl eq_refl)) as [Hget Hterm].
  destruct (attempt_accounted tx w Hacc Hget Hterm) as (H1 & H2 & H3 & H4).
  assert (Hlive' : live (snd (attempt ledger tx w)) txs)
    by (eapply live_after; eassumption).
  inversion Hnd as [|? ? Hnotin Hnd']. subst.
  destruct Hin as [->|Hin].
  - exists w. split; [exact Hacc|split; [exact Hget|]].
    destruct (forEach_accounted txs _ Hnd' H1 Hlive') as (_ & I2 & _).
    rewrite I2 by assumption. now rewrite attempt_run.
  - now apply IH.
Qed.

Lemma processTransactions_forEach w :
  processTransactions ledger w
  = forEach (Db.getNonTerminalTransactions (db w)) (attempt ledger) w.
Proof. reflexivity. Qed.

End CycleFacts.

(** ** Runs *)

Section RunFacts.
Context {platform : Platform}.
Variable keypair : Keypair.

Lemma initial_accounted : accounted initialWorld.
Proof.
  split.
  - split; [constructor|]. intros k r [].
  - intros id. now cbn.
Qed.

Lemma stored_iff_key d id :
  Db.getTransaction d id <> None <-> In id (JsMap.keys (transactions d)).
Proof.
  unfold Db.getTransaction. split.
  - destruct (JsMap.get (transactions d) id) eqn:E; [|congruence].
    intros _. eapply JsMapFacts.get_Some_keys. eassumption.
  - intros Hin E. now apply JsMapFacts.get_None_keys in E.
Qed.

Lemma Admission_kept s h w r w' :
  Admission keypair s h w r w' ->
  users (db w') = users (db w)
  /\ forall id r0, Db.getTransaction (db w) id = Some r0 ->
                   Db.getTransaction (db w') id = Some r0.
Proof.
  intros []; cbn [db validated]; auto.
  split.
  - unfold Db.addTransaction. now destruct (negb _).
  - intros id r0 Hget. rewrite addTransaction_get_other; [assumption|].
    subst record. cbn [acceptedRecord signature]. congruence.
Qed.

Lemma Admission_accounted s h w r w' :
  Admission keypair s h w r w' -> accounted w -> accounted w'.
Proof.
  intros HA Hacc. pose proof Hacc as [Hk Hc].
  destruct HA
    as [| | |t vs vr va signed sig raw Hd Hv Hp Hm Hs Hnone record]; auto.
  - split; [exact Hk|]. intros id. unfold validated, statusOf. cbn [db trace].
    rewrite !occurrences_snoc. cbn. rewrite !Nat.add_0_r. apply Hc.
  - split; [exact Hk|]. intros id. unfold validated, statusOf. cbn [db trace].
    rewrite !occurrences_snoc. cbn. rewrite !Nat.add_0_r. apply Hc.
  - assert (Hsig : signature record = base64_encode sig) by reflexivity.
    split; cbn [db trace].
    + now apply addTransaction_wellKeyed.
    + intros id. unfold statusOf. cbn [db].
      replace (trace w ++ [EvValidateTransaction t; EvAddTransaction record])%list
        with ((trace w ++ [EvValidateTransaction t]) ++ [EvAddTransaction record])%list
        by (now rewrite <- app_assoc).
      rewrite !occurrences_snoc. cbn [isReceiptFor isFailedMarkFor].
      rewrite !Nat.add_0_r.
      destruct (Hc id) as [Hr Hf]. unfold statusOf in Hr, Hf.
      destruct (string_dec (signature record) id) as [<-|Hne].
      * rewrite addTransaction_get_new by (now rewrite Hsig).
        rewrite Hsig in Hr, Hf. rewrite Hnone in Hr, Hf. cbn in *. auto.
      * rewrite addTransaction_get_other by assumption. auto.
Qed.

Lemma processTransactions_accounted ledger w :
  accounted w ->
  let w' := snd (processTransactions ledger w) in
  accounted w'
  /\ (forall id r, Db.getTransaction (db w) id = Some r ->
                   terminal (status r) = true ->
                   Db.getTransaction (db w') id = Some r)
  /\ users (db w') = users (db w)
  /\ JsMap.keys (transactions (db w')) = JsMap.keys (transactions (db w)).
Proof.
  intros Hacc. rewrite processTransactions_forEach.
  destruct (snapshot_spec (db w) (proj1 Hacc)) as [Hnd Hlive].
  destruct (forEach_accounted ledger _ w Hnd Hacc Hlive) as (H1 & H2 & H3 & H4).
  cbn zeta. split; [exact H1|split; [|split; assumption]].
  intros id r Hget Hterm. rewrite H2; [assumption|].
  intros Hin. apply in_map_iff in Hin. destruct Hin as (tx & Hsig & Hin).
  destruct (Hlive tx Hin) as [Hget' Hnt]. rewrite Hsig in Hget'.
  rewrite Hget in Hget'. inversion Hget'. subst. congruence.
Qed.

Lemma step_accounted a w : accounted w -> accounted (step keypair a w).
Proof.
  intros Hacc. destruct a as [pk nm|s h|ledger]; cbn [step].
  - exact Hacc.
  - destruct (relayTransaction_returns keypair s h w) as (r & w' & E & HA).
    rewrite E. cbn [snd]. eapply Admission_accounted; eassumption.
  - now apply processTransactions_accounted.
Qed.

Lemma run_accounted acts : forall w,
  accounted w -> accounted (run keypair acts w).
Proof.
  unfold run. induction acts as [|a acts IH]; intros w Hacc; cbn; auto.
  apply IH. now apply step_accounted.
Qed.

Lemma has_set_monotone {V : Type} (m : JsMap.t V) k v k' :
  JsMap.has m k' = true -> JsMap.has (JsMap.set m k v) k' = true.
Proof.
  unfold JsMap.has. destruct (string_dec k k') as [<-|Hne].
  - now rewrite JsMapFacts.get_set_same.
  - now rewrite JsMapFacts.get_set_other.
Qed.

Lemma step_retains a w : accounted w -> retains w (step keypair a w).
Proof.
  intros Hacc. destruct a as [pk nm|s h|ledger]; cbn [step].
  - split; cbn [db]; [|auto].
    intros pk'. unfold Db.isUserRegistered, Db.addUser. cbn [users].
    apply has_set_monotone.
  - destruct (relayTransaction_returns keypair s h w) as (r & w' & E & HA).
    rewrite E. cbn [snd]. destruct (Admission_kept _ _ _ _ _ HA) as [Hu Hg].
    split.
    + intros pk. unfold Db.isUserRegistered. now rewrite Hu.
    + intros id Hid. destruct (Db.getTransaction (db w) id) eqn:E'; [|congruence].
      now rewrite (Hg _ _ E').
  - destruct (processTransactions_accounted ledger w Hacc) as (_ & _ & Hu & Hk).
    split.
    + intros pk. unfold Db.isUserRegistered. now rewrite Hu.
    + intros id. rewrite !stored_iff_key. now rewrite Hk.
Qed.

Lemma run_retains acts : forall w,
  accounted w -> retains w (run keypair acts w).
Proof.
  unfold run. induction acts as [|a acts IH]; intros w Hacc; cbn.
  - split; auto.
  - destruct (step_retains a w Hacc) as [Hu Hs].
    destruct (IH _ (step_accounted a w Hacc)) as [Hu' Hs'].
    split; auto.
Qed.

(** A record in a terminal state is never touched again. *)
Lemma step_terminal_kept a w id r :
  accounted w ->
  Db.getTransaction (db w) id = Some r ->
  terminal (status r) = true ->
  Db.getTransaction (db (step keypair a w)) id = Some r.
Proof.
  intros Hacc Hget Hterm. destruct a as [pk nm|s h|ledger]; cbn [step].
  - exact Hget.
  - destruct (relayTransaction_returns keypair s h w) as (r' & w' & E & HA).
    rewrite E. cbn [snd]. now apply (Admission_kept _ _ _ _ _ HA).
  - now apply (processTransactions_accounted ledger w Hacc).
Qed.

Lemma run_terminal_kept acts : forall w id r,
  accounted w ->
  Db.getTransaction (db w) id = Some r ->
  terminal (status r) = true ->
  Db.getTransaction (db (run keypair acts w)) id = Some r.
Proof.
  unfold run. induction acts as [|a acts IH]; intros w id r Hacc Hget Hterm;
    cbn; auto.
  apply IH; [now apply step_accounted| |assumption].
  now apply step_terminal_kept.
Qed.

End RunFacts.

(** ** The workflow and the store over runs *)

Section Claims.
Context {platform : Platform}.
Variable keypair : Keypair.

Lemma reachable_accounted acts : accounted (run keypair acts initialWorld).
Proof. apply run_accounted, initial_accounted. Qed.

(** Where the node reports a status, the state of a stored, non-terminal
    record stays, or moves to a stronger state, or, in the one case of a
    [CONFIRMED] record reported "processed", moves back to [PROCESSED]. *)
Lemma handleExistingStatus_moves tx c w :
  Db.getTransaction (db w) (signature tx) = Some tx ->
  terminal (status tx) = false ->
  let after := statusOf (snd (handleExistingStatus tx c w)) (signature tx) in
  after = Some (status tx)
  \/ (exists st, after = Some st /\ weaker (status tx) st)
  \/ (c = Some "processed" /\ status tx = CONFIRMED /\ after = Some PROCESSED).
Proof.
  intros Hget Hterm. cbv zeta.
  assert (Hsame : statusOf w (signature tx) = Some (status tx))
    by (unfold statusOf; now rewrite Hget).
  unfold handleExistingStatus.
  destruct c as [c|]; [|now left].
  destruct (String.eqb c EmptyString); [now left|].
  destruct (String.eqb c "processed") eqn:Ep.
  { apply String.eqb_eq in Ep. subst c.
    destruct (negb _) eqn:E; [|now left].
    rewrite db_updateTransactionStatus_run. cbn [snd].
    rewrite (statusOf_marked_same _ _ _ _ Hget).
    destruct (status tx) eqn:Es; try discriminate.
    - right. left. exists PROCESSED. split; [reflexivity|]. cbn. lia.
    - right. left. exists PROCESSED. split; [reflexivity|]. cbn. lia.
    - right. right. auto. }
  destruct (String.eqb c "confirmed").
  { destruct (_ && _) eqn:E; [|now left].
    rewrite db_updateTransactionStatus_run. cbn [snd].
    rewrite (statusOf_marked_same _ _ _ _ Hget).
    destruct (status tx) eqn:Es; try discriminate;
      right; left; exists CONFIRMED; (split; [reflexivity|cbn; lia]). }
  destruct (String.eqb c "finalized"); [|now left].
  destruct (negb _) eqn:E; [|now left].
  unfold bind. rewrite db_updateTransactionStatus_run.
  unfold deref, gets, sendReceipt, emit. cbn [snd fst].
  unfold statusOf. cbn [db].
  fold (statusOf (marked (signature tx) FINALIZED w) (signature tx)).
  rewrite (statusOf_marked_same _ _ _ _ Hget).
  destruct (status tx) eqn:Es; try discriminate;
    right; left; exists FINALIZED; (split; [reflexivity|cbn; lia]).
Qed.

Lemma Processed_not_failed connection tx w w' :
  Processed connection tx w w' ->
  Db.getTransaction (db w) (signature tx) = Some tx ->
  status tx <> FAILED ->
  failureDetermined connection tx = false ->
  statusOf w' (signature tx) <> Some FAILED.
Proof.
  intros HP Hget Hnf Hfd.
  assert (Hsame : statusOf w (signature tx) <> Some FAILED).
  { unfold statusOf. rewrite Hget. cbn. congruence. }
  destruct HP; unfold receipted, broadcast, bind, deref, gets, sendReceipt, emit;
    try assumption.
  - rewrite (statusOf_marked_same _ _ _ tx); [discriminate|exact Hget].
  - rewrite (statusOf_marked_same _ _ _ tx); [discriminate|exact Hget].
  - rewrite (statusOf_marked_same _ _ _ tx); [discriminate|exact Hget].
  - unfold statusOf. cbn [snd db].
    fold (statusOf (marked (signature tx) FINALIZED w) (signature tx)).
    rewrite (statusOf_marked_same _ _ _ tx); [discriminate|exact Hget].
  - congruence.
Qed.

(** The record of [tx] after a cycle is [FAILED] exactly when the
    failure of [tx] is determined. *)
Lemma cycle_failed_iff ledger w tx :
  accounted w ->
  In tx (Db.getNonTerminalTransactions (db w)) ->
  statusOf (snd (processTransactions ledger w)) (signature tx) = Some FAILED
  <-> failureDetermined (ledger (signature tx)) tx = true.
Proof.
  intros Hacc Hin.
  destruct (snapshot_spec (db w) (proj1 Hacc)) as [Hnd Hlive].
  destruct (forEach_focus ledger _ tx w Hnd Hacc Hlive Hin)
    as (w1 & Hacc1 & Hget1 & Hfinal).
  rewrite processTransactions_forEach. unfold statusOf at 1.
  rewrite Hfinal.
  fold (statusOf (snd (processTransaction (ledger (signature tx)) tx w1))
                 (signature tx)).
  destruct (failureDetermined (ledger (signature tx)) tx) eqn:Hfd.
  - rewrite (processTransaction_failed _ _ _ Hfd). cbn [snd].
    rewrite (statusOf_marked_same _ _ _ _ Hget1). tauto.
  - split; [|discriminate]. intros Hfailed. exfalso.
    destruct (Hlive tx Hin) as [_ Hterm].
    eapply Processed_not_failed; try eassumption.
    + apply processTransaction_Processed.
    + intros E. rewrite E in Hterm. discriminate.
Qed.

Lemma below_height_not_determined connection tx info :
  getEpochInfo connection = Return info ->
  (finalizedHeight info < lastValidBlockHeight tx)%Z ->
  failureDetermined connection tx = false.
Proof.
  intros Hinfo Hlt. unfold failureDetermined, heightReached.
  rewrite Hinfo. apply Z.ltb_lt in Hlt. rewrite Hlt. cbn [negb andb].
  destruct (onChain tx) as [[sig bh]|]; [|reflexivity].
  now rewrite andb_false_r.
Qed.

(** C4.  In every reachable state and for every record a cycle works on,
    when the node has finalized less than the record's
    [lastValidBlockHeight]: the cycle does not set the record to [FAILED],
    whatever else the node answers; and where the workflow finds the
    blockhash expired, that is, when the node has no status for the
    record's signature and says that its blockhash is no longer valid, the
    cycle leaves the stored record exactly as it is. *)
Theorem expired_below_height_left_unchanged acts ledger tx info :
  let w := run keypair acts initialWorld in
  let w' := snd (processTransactions ledger w) in
  In tx (Db.getNonTerminalTransactions (db w)) ->
  getEpochInfo (ledger (signature tx)) = Return info ->
  (finalizedHeight info < lastValidBlockHeight tx)%Z ->
  statusOf w' (signature tx) <> Some FAILED
  /\ (unknownAndExpired (ledger (signature tx)) tx = true ->
      Db.getTransaction (db w') (signature tx) = Some tx
      /\ statusOf w' (signature tx) = Some (status tx)).
Proof.
  intros w w' Hin Hinfo Hlt.
  pose proof (reachable_accounted acts) as Hacc. fold w in Hacc.
  split.
  - intros Hfailed. apply (cycle_failed_iff ledger w tx Hacc Hin) in Hfailed.
    rewrite (below_height_not_determined _ _ _ Hinfo Hlt) in Hfailed.
    discriminate.
  - intros Hexp.
    destruct (snapshot_spec (db w) (proj1 Hacc)) as [Hnd Hlive].
    destruct (forEach_focus ledger _ tx w Hnd Hacc Hlive Hin)
      as (w1 & Hacc1 & Hget1 & Hfinal).
    rewrite (processTransaction_waits _ _ _ _ Hexp Hinfo Hlt) in Hfinal.
    cbn [snd] in Hfinal. rewrite Hget1 in Hfinal.
    subst w'. rewrite processTransactions_forEach.
    split; [exact Hfinal|]. unfold statusOf. now rewrite Hfinal.
Qed.

Lemma run_app a b w : run keypair (a ++ b) w = run keypair b (run keypair a w).
Proof. unfold run. apply fold_left_app. Qed.

(** C2, as the code has it.  After a successful admission, and whatever
    happens in between, submitting the same text again returns the same
    identifier and leaves the database as it is, with exactly one record
    under that identifier; the validator is entered again on the way, and
    nothing else is recorded. *)
Theorem readmission_returns_same_id acts s h r1 w1 more h' :
  let w0 := run keypair acts initialWorld in
  relayTransaction keypair s h w0 = (Return r1, w1) ->
  success r1 = true ->
  let w := run keypair more w1 in
  exists t id,
    Transaction_from (base64_decode s) = Return t
    /\ r1 = relaySuccess id
    /\ relayTransaction keypair s h' w = (Return r1, validated w t)
    /\ db (validated w t) = db w
    /\ storedUnder (validated w t) id = 1.
Proof.
  intros w0 E Hs w.
  pose proof (reachable_accounted acts) as Hacc0. fold w0 in Hacc0.
  apply relayTransaction_inv in E.
  pose proof (Admission_accounted keypair _ _ _ _ _ E Hacc0) as Hacc1.
  destruct (Admission_success_stored keypair _ _ _ _ _ E Hs)
    as (t & vs & vr & va & signed & sig & Hd & Hv & Hp & Hm & Hsg & Hr & Hst & Hu).
  destruct (run_retains keypair more w1 Hacc1) as [Husers Hstored].
  fold w in Husers, Hstored.
  exists t, (base64_encode sig). split; [exact Hd|]. split; [exact Hr|].
  split.
  - rewrite Hr. eapply relayTransaction_existing; try eassumption; auto.
    eapply validateTransaction_users; [|exact Hv].
    intros pk Hpk. apply Husers. unfold Db.isUserRegistered in *.
    now rewrite Hu.
  - split; [reflexivity|].
    unfold storedUnder. cbn [validated db]. apply NoDup_count_occ'.
    + apply (run_accounted keypair more w1 Hacc1).
    + apply stored_iff_key. auto.
Qed.

End Claims.

(** ** The store, the timer, the validator, the workflow, the admission
    and the polling: what the code guarantees *)

Section StoreProperties.

Lemma values_set_absent {V : Type} (m : JsMap.t V) k v :
  JsMap.get m k = None -> JsMap.values (JsMap.set m k v) = (JsMap.values m ++ [v])%list.
Proof.
  induction m as [|[k' v'] rest IH]; cbn; auto.
  destruct (String.eqb k' k) eqn:E; [discriminate|].
  intros H. cbn. f_equal. now apply IH.
Qed.

(** X1.  [addTransaction] never overwrites: with a record already stored
    under the signature the database is returned as it is; otherwise the
    record is appended to the records in insertion order and can be
    looked up; no other key and no user is touched. *)
Theorem addTransaction_keeps_first d record :
  (forall old, Db.getTransaction d (signature record) = Some old ->
               Db.addTransaction d record = d)
  /\ (Db.getTransaction d (signature record) = None ->
      Db.getTransaction (Db.addTransaction d record) (signature record)
      = Some record
      /\ Db.getAllTransactions (Db.addTransaction d record)
         = (Db.getAllTransactions d ++ [record])%list)
  /\ (forall id, signature record <> id ->
        Db.getTransaction (Db.addTransaction d record) id
        = Db.getTransaction d id)
  /\ users (Db.addTransaction d record) = users d.
Proof.
  split; [|split; [|split]].
  - intros old H. unfold Db.addTransaction, JsMap.has.
    unfold Db.getTransaction in H. now rewrite H.
  - intros H. split; [now apply addTransaction_get_new|].
    unfold Db.getAllTransactions, Db.addTransaction, JsMap.has.
    unfold Db.getTransaction in H. rewrite H. cbn [negb transactions].
    now apply values_set_absent.
  - intros id Hne. now apply addTransaction_get_other.
  - unfold Db.addTransaction. now destruct (negb _).
Qed.

(** X2.  [updateTransactionStatus] does nothing for a signature that is
    not stored; for a stored one it changes the [status] and [updatedAt]
    of that record and nothing else: the other fields, the other records,
    the order of the records and the users stay. *)
Theorem updateTransactionStatus_touches_one d sig st now :
  (Db.getTransaction d sig = None ->
   Db.updateTransactionStatus d sig st now = d)
  /\ (forall r, Db.getTransaction d sig = Some r ->
        exists r',
          Db.getTransaction (Db.updateTransactionStatus d sig st now) sig
          = Some r'
          /\ sameTransfer r r' /\ status r' = st /\ updatedAt r' = now)
  /\ (forall id, sig <> id ->
        Db.getTransaction (Db.updateTransactionStatus d sig st now) id
        = Db.getTransaction d id)
  /\ JsMap.keys (transactions (Db.updateTransactionStatus d sig st now))
     = JsMap.keys (transactions d)
  /\ users (Db.updateTransactionStatus d sig st now) = users d.
Proof.
  split; [|split; [|split; [|split]]].
  - intros H. unfold Db.updateTransactionStatus.
    unfold Db.getTransaction in H. now rewrite H.
  - intros r H. eexists. split.
    + exact (updateTransactionStatus_get_same _ _ _ _ _ H).
    + unfold sameTransfer. cbn. tauto.
  - intros id Hne. now apply updateTransactionStatus_get_other.
  - apply updateTransactionStatus_keys.
  - apply updateTransactionStatus_users.
Qed.

(** X3.  [addUser] registers the key and, unlike [addTransaction],
    replaces the record of a key that is already there; the other users
    and the transactions are untouched, and nobody is registered in the
    empty database. *)
Theorem addUser_registers d pk nm :
  Db.isUserRegistered (Db.addUser d pk nm) pk = true
  /\ Db.getUser (Db.addUser d pk nm) pk = Some {| publicKey := pk; name := nm |}
  /\ (forall pk', pk <> pk' ->
        Db.getUser (Db.addUser d pk nm) pk' = Db.getUser d pk'
        /\ Db.isUserRegistered (Db.addUser d pk nm) pk'
           = Db.isUserRegistered d pk')
  /\ transactions (Db.addUser d pk nm) = transactions d
  /\ (forall pk', Db.isUserRegistered Db.empty pk' = false).
Proof.
  unfold Db.isUserRegistered, Db.getUser, Db.addUser, JsMap.has. cbn [users].
  split; [|split; [|split; [|split]]].
  - now rewrite JsMapFacts.get_set_same.
  - apply JsMapFacts.get_set_same.
  - intros pk' Hne. now rewrite JsMapFacts.get_set_other.
  - reflexivity.
  - reflexivity.
Qed.

(** X4.  In a database keyed by signature, the records
    [getNonTerminalTransactions] returns are exactly the stored records
    whose status is neither [FINALIZED] nor [FAILED], each once. *)
Theorem getNonTerminalTransactions_exact d :
  wellKeyed d ->
  NoDup (map signature (Db.getNonTerminalTransactions d))
  /\ forall tx,
       In tx (Db.getNonTerminalTransactions d)
       <-> Db.getTransaction d (signature tx) = Some tx
           /\ status tx <> FINALIZED /\ status tx <> FAILED.
Proof.
  intros Hwk. destruct (snapshot_spec d Hwk) as [Hnd Hlive].
  split; [exact Hnd|]. intros tx. split.
  - intros Hin. destruct (Hlive tx Hin) as [Hget Hterm]. split; [exact Hget|].
    destruct (status tx); cbn in Hterm; split; congruence.
  - intros (Hget & Hf & Hx). unfold Db.getNonTerminalTransactions.
    apply filter_In. split.
    + unfold JsMap.values. apply JsMapFacts.get_In in Hget.
      now apply (in_map snd) in Hget.
    + destruct (status tx); cbn; congruence.
Qed.

End StoreProperties.

Section TimerProperties.

Lemma filter_all {A} (f : A -> bool) l :
  (forall x, In x l -> f x = true) -> filter f l = l.
Proof.
  induction l as [|x l IH]; cbn; auto. intros H.
  rewrite (H x (or_introl eq_refl)). f_equal. apply IH. auto.
Qed.

Lemma filter_none {A} (f : A -> bool) l :
  (forall x, In x l -> f x = false) -> filter f l = [].
Proof.
  induction l as [|x l IH]; cbn; auto. intros H.
  rewrite (H x (or_introl eq_refl)). apply IH. auto.
Qed.

Lemma timerCall_state base c s :
  timerState base s -> timerState base (timerCall c s).
Proof.
  destruct s as [p ts]. intros [Hfresh H]. cbn [fst snd] in *.
  destruct c as [ms|]; cbn [timerCall fst snd].
  - unfold start, setInterval. destruct H as [(Hr & Hi & Ha)|(id & ms' & Hr & Hi & Hlt & Hne & Ha)].
    + rewrite Hr. split; cbn [fst snd nextTimer running intervalId active].
      * intros t Ht. specialize (Hfresh t Ht). lia.
      * right. exists (nextTimer ts), ms. repeat split; auto.
        -- intros t Ht. specialize (Hfresh t Ht). lia.
        -- now rewrite Ha.
    + rewrite Hr. split; [exact Hfresh|]. right. exists id, ms'. auto.
  - unfold stop, clearInterval. destruct H as [(Hr & Hi & Ha)|(id & ms' & Hr & Hi & Hlt & Hne & Ha)].
    + rewrite Hi. split; cbn [fst snd nextTimer running intervalId active];
        [exact Hfresh|]. left. auto.
    + rewrite Hi. split; cbn [fst snd nextTimer running intervalId active];
        [exact Hfresh|]. left. repeat split; auto.
      rewrite Ha. cbn. rewrite Nat.eqb_refl. cbn.
      apply filter_all. intros t Ht. apply negb_true_iff.
      apply Nat.eqb_neq. now apply Hne.
Qed.

Lemma timerCalls_state base cs : forall s,
  timerState base s -> timerState base (timerCalls cs s).
Proof.
  unfold timerCalls. induction cs as [|c cs IH]; intros s H; cbn; auto.
  apply IH. now apply timerCall_state.
Qed.

(** X5.  However [start] and [stop] are called on a new processor, it is
    running exactly when it holds an interval, it then holds exactly one
    active timer, and the timers that were active before are all still
    active and are the only other ones: a second [start] arms no second
    timer and [stop] clears the one that was armed. *)
Theorem start_stop_hold_one_timer cs ts :
  timersFresh ts ->
  let s := timerCalls cs (newWorkflowProcessor, ts) in
  (running (fst s) = true <-> intervalId (fst s) <> None)
  /\ length (heldTimers s) = (if running (fst s) then 1 else 0)
  /\ length (active (snd s))
     = length (active ts) + (if running (fst s) then 1 else 0)
  /\ (forall t, In t (active ts) -> In t (active (snd s))).
Proof.
  intros Hfresh s.
  assert (H0 : timerState (active ts) (newWorkflowProcessor, ts)).
  { split; [exact Hfresh|]. left. auto. }
  pose proof (timerCalls_state _ cs _ H0) as [_ H]. fold s in H.
  unfold heldTimers.
  destruct H as [(Hr & Hi & Ha)|(id & ms & Hr & Hi & Hlt & Hne & Ha)];
    rewrite Hr, Hi, Ha.
  - split; [split; congruence|]. split; [reflexivity|].
    split; [lia|auto].
  - split; [split; congruence|]. split; [|split].
    + cbn. rewrite Nat.eqb_refl. cbn. f_equal.
      rewrite filter_none; [reflexivity|].
      intros t Ht. apply Nat.eqb_neq. now apply Hne.
    + cbn. lia.
    + intros t Ht. now right.
Qed.

End TimerProperties.

Section ValidatorProperties.
Context {platform : Platform}.
Variable keypair : Keypair.

Lemma le_bytes_to_N_bound l :
  (le_bytes_to_N l < 256 ^ N.of_nat (length l))%N.
Proof.
  induction l as [|b l IH]; [cbn; lia|].
  cbn [le_bytes_to_N length]. rewrite Nat2N.inj_succ, N.pow_succ_r'.
  pose proof (Byte.to_N_bounded b). lia.
Qed.

Lemma readBigUInt64LE_bound l offset n :
  readBigUInt64LE l offset = Return n -> (n < 2 ^ 64)%N.
Proof.
  unfold readBigUInt64LE.
  destruct (Nat.eqb _ 8) eqn:E; [|discriminate].
  apply Nat.eqb_eq in E. intros H. inversion H. subst n.
  pose proof (le_bytes_to_N_bound (firstn 8 (skipn offset l))) as Hb.
  rewrite E in Hb. exact Hb.
Qed.

Lemma validateTransferInstruction_shape ix r vs vr va :
  validateTransferInstruction ix r = Return (Valid vs vr va) ->
  programId ix = TOKEN_PROGRAM_ID
  /\ nth_error (data ix) 0 = Some x0c
  /\ readBigUInt64LE (data ix) 1 = Return va
  /\ option_map pubkey (nth_error (keys ix) 3) = Some vs
  /\ (exists src, option_map pubkey (nth_error (keys ix) 0) = Some src
                  /\ getAssociatedTokenAddressSync USDC_MINT vs = Return src)
  /\ (exists dst, option_map pubkey (nth_error (keys ix) 2) = Some dst
                  /\ getAssociatedTokenAddressSync USDC_MINT r = Return dst).
Proof.
  unfold validateTransferInstruction, bindO, at_index.
  repeat split_head; intros H; try discriminate; inv_return.
  repeat match goal with
  | E : negb (PublicKey_equals _ _) = false |- _ =>
      apply negb_false_iff in E; apply String.eqb_eq in E
  | E : _ || _ = false |- _ => apply orb_false_iff in E; destruct E
  end.
  subst. split; [assumption|]. split.
  - match goal with
    | E : byte_differs _ _ _ = false |- _ => unfold byte_differs in E
    end.
    destruct (nth_error (data ix) 0) as [b|]; [|discriminate].
    match goal with
    | E : negb (N.eqb (Byte.to_N b) _) = false |- _ =>
        apply negb_false_iff in E; apply N.eqb_eq in E;
        apply (f_equal Byte.of_N) in E; rewrite Byte.of_to_N in E;
        cbn in E; exact E
    end.
  - repeat split; eauto;
      eexists; (split; [reflexivity|]); (eassumption || reflexivity).
Qed.

(** X6.  What the validator has checked of a transaction it accepts: two
    instructions, the relayer as fee payer, sender and recipient
    registered, the sender's signature present and the relayer's absent (so
    the sender is not the relayer), the transfer authorised by the sender,
    drawn on the sender's USDC account and paid into the recipient's, which
    is the account the first instruction creates, and an amount that is
    the little-endian value of the eight bytes after the discriminator,
    below 2^64. *)
Theorem accepted_transaction_checked d t vs vr va :
  validateTransaction keypair d t = Return (Valid vs vr va) ->
  length (instructions t) = 2
  /\ feePayer t = Some (kpPublicKey keypair)
  /\ Db.isUserRegistered d vs = true
  /\ Db.isUserRegistered d vr = true
  /\ findSignature (signatures t) vs <> None
  /\ findSignature (signatures t) (kpPublicKey keypair) = None
  /\ vs <> kpPublicKey keypair
  /\ accountAt t 1 3 = Some vs
  /\ (exists src, accountAt t 1 0 = Some src
                  /\ getAssociatedTokenAddressSync USDC_MINT vs = Return src)
  /\ (exists dst, accountAt t 1 2 = Some dst
                  /\ accountAt t 0 1 = Some dst
                  /\ getAssociatedTokenAddressSync USDC_MINT vr = Return dst)
  /\ (exists ix, nth_error (instructions t) 1 = Some ix
                 /\ readBigUInt64LE (data ix) 1 = Return va)
  /\ (va < 2 ^ 64)%N.
Proof.
  unfold validateTransaction, getRecipientFromCreateAta, bindO, at_index.
  unfold accountAt.
  repeat split_head; intros H; try discriminate; inv_return.
  repeat match goal with
  | E : negb _ = false |- _ => apply negb_false_iff in E
  end.
  match goal with
  | E : validateCreateAtaInstruction _ = Return (AtaValid _) |- _ =>
      apply validateCreateAtaInstruction_valid in E; destruct E as [Htarget _]
  end.
  match goal with
  | E : validateTransferInstruction _ _ = Return (Valid _ _ _) |- _ =>
      pose proof (validateTransferInstruction_valid _ _ _ _ _ E) as [Hvr _];
      apply validateTransferInstruction_shape in E;
      destruct E as (_ & _ & Hamount & Howner & (src & Hsrc & Hsata)
                     & (dst & Hdst & Hdata))
  end.
  assert (Hsig : findSignature (signatures t) vs <> None).
  { match goal with
    | E : is_some (findSignature _ vs) = true |- _ =>
        destruct (findSignature (signatures t) vs); [discriminate|discriminate E]
    end. }
  assert (Hrel : findSignature (signatures t) (kpPublicKey keypair) = None).
  { match goal with
    | E : is_some (findSignature _ (kpPublicKey keypair)) = false |- _ =>
        destruct (findSignature (signatures t) (kpPublicKey keypair));
        [discriminate E|reflexivity]
    end. }
  split; [now apply Nat.eqb_eq|].
  split; [f_equal; now apply String.eqb_eq|].
  split; [assumption|]. split; [assumption|].
  split; [exact Hsig|]. split; [exact Hrel|].
  split; [intros ->; contradiction|].
  split; [exact Howner|]. split; [eauto|]. split.
  - rewrite <- Hvr in Hdata.
    exists dst. split; [exact Hdst|]. split; [|exact Hdata].
    rewrite Htarget. f_equal.
    match goal with
    | E : PublicKey_equals targetAta _ = true |- _ => apply String.eqb_eq in E
    end.
    congruence.
  - split; [eauto|]. eapply readBigUInt64LE_bound; eassumption.
Qed.

(** X7.  The validator accepts a transaction of the shape [Client.transfer]
    assembles: for a registered sender other than the relayer and a
    registered recipient, with the two USDC accounts derived from their
    keys and an amount of eight bytes, the result is valid and names the
    sender, the recipient and the little-endian value of the amount. *)
Theorem built_transfer_accepted d senderPk recipientPk senderAta recipientAta
    amountBytes decimals senderSig blockhash :
  getAssociatedTokenAddressSync USDC_MINT senderPk = Return senderAta ->
  getAssociatedTokenAddressSync USDC_MINT recipientPk = Return recipientAta ->
  Db.isUserRegistered d senderPk = true ->
  Db.isUserRegistered d recipientPk = true ->
  senderPk <> kpPublicKey keypair ->
  length amountBytes = 8 ->
  validateTransaction keypair d
    (builtTransfer (kpPublicKey keypair) senderPk recipientPk senderAta
                   recipientAta amountBytes decimals senderSig blockhash)
  = Return (Valid senderPk recipientPk (le_bytes_to_N amountBytes)).
Proof.
  intros Hsa Hra Hrs Hrr Hne Hlen.
  assert (Hread : readBigUInt64LE (x0c :: amountBytes ++ [decimals]) 1
                  = Return (le_bytes_to_N amountBytes)).
  { unfold readBigUInt64LE. cbn [skipn].
    rewrite firstn_app, <- Hlen, firstn_all, Nat.sub_diag. cbn [firstn].
    rewrite app_nil_r, Hlen. reflexivity. }
  assert (Hlen9 : Nat.ltb (length (x0c :: amountBytes ++ [decimals])) 9 = false).
  { cbn [length]. rewrite length_app, Hlen. reflexivity. }
  assert (Hrelsend : String.eqb (kpPublicKey keypair) senderPk = false).
  { apply String.eqb_neq. congruence. }
  assert (Hsendrel : String.eqb senderPk (kpPublicKey keypair) = false).
  { now apply String.eqb_neq. }
  unfold validateTransaction, builtTransfer.
  cbn [instructions feePayer signatures length Nat.eqb negb].
  unfold PublicKey_equals. rewrite String.eqb_refl. cbn [negb].
  unfold bindO at 1. cbn [at_index nth_error].
  unfold validateCreateAtaInstruction.
  cbn [programId data keys length Nat.eqb Nat.ltb Nat.leb negb orb].
  unfold PublicKey_equals. rewrite String.eqb_refl.
  cbn [negb byte_differs nth_error orb bindO at_index pubkey].
  rewrite String.eqb_refl. cbn [negb bindO].
  unfold getRecipientFromCreateAta.
  cbn [keys at_index nth_error bindO pubkey].
  unfold validateTransferInstruction.
  cbn [programId data keys]. unfold PublicKey_equals.
  rewrite String.eqb_refl. cbn [negb]. rewrite Hlen9. cbn [orb byte_differs nth_error].
  cbn -[readBigUInt64LE le_bytes_to_N String.eqb]. rewrite Hread.
  unfold findSignature, unexpectedSigner, PublicKey_equals.
  repeat (cbn -[le_bytes_to_N String.eqb];
          first [ rewrite String.eqb_refl | rewrite Hsa | rewrite Hra
                | rewrite Hrs | rewrite Hrr | rewrite Hrelsend
                | rewrite Hsendrel ]).
  cbn -[le_bytes_to_N String.eqb].
  reflexivity.
Qed.

End ValidatorProperties.

Section KeptFacts.
Context {platform : Platform}.

Lemma sameTransfer_refl r : sameTransfer r r.
Proof. unfold sameTransfer. tauto. Qed.

Lemma sameTransfer_trans a b c :
  sameTransfer a b -> sameTransfer b c -> sameTransfer a c.
Proof.
  unfold sameTransfer.
  intros (A1 & A2 & A3 & A4 & A5 & A6 & A7) (B1 & B2 & B3 & B4 & B5 & B6 & B7).
  repeat split; congruence.
Qed.

Lemma keepsTransfers_refl w : keepsTransfers w w.
Proof. intros id r H. exists r. split; [exact H|apply sameTransfer_refl]. Qed.

Lemma keepsTransfers_trans a b c :
  keepsTransfers a b -> keepsTransfers b c -> keepsTransfers a c.
Proof.
  intros Hab Hbc id r H. destruct (Hab _ _ H) as (r1 & H1 & S1).
  destruct (Hbc _ _ H1) as (r2 & H2 & S2). exists r2. split; [exact H2|].
  eapply sameTransfer_trans; eassumption.
Qed.

Lemma updateTransactionStatus_sameTransfer d sig st now id r :
  Db.getTransaction d id = Some r ->
  exists r', Db.getTransaction (Db.updateTransactionStatus d sig st now) id
             = Some r'
             /\ sameTransfer r r'.
Proof.
  intros H. destruct (string_dec sig id) as [->|Hne].
  - unfold Db.updateTransactionStatus, Db.getTransaction in *. rewrite H.
    cbn [transactions]. rewrite JsMapFacts.get_set_same.
    eexists. split; [reflexivity|]. unfold sameTransfer. cbn. tauto.
  - rewrite updateTransactionStatus_get_other by assumption.
    exists r. split; [exact H|apply sameTransfer_refl].
Qed.

Lemma keepsTransfers_marked sig st w : keepsTransfers w (marked sig st w).
Proof.
  intros id r H. unfold marked, db_updateTransactionStatus.
  destruct (Db.getTransaction (db w) sig); cbn [snd db].
  - now apply updateTransactionStatus_sameTransfer.
  - exists r. split; [exact H|apply sameTransfer_refl].
Qed.

Lemma db_receipted tx w : db (receipted tx w) = db w.
Proof. reflexivity. Qed.

Lemma db_broadcast raw w : db (broadcast raw w) = db w.
Proof. reflexivity. Qed.

Lemma Processed_keepsTransfers connection tx w w' :
  Processed connection tx w w' -> keepsTransfers w w'.
Proof.
  intros []; try apply keepsTransfers_refl; try apply keepsTransfers_marked.
  - intros id r Hget. exists r. split; [exact Hget|apply sameTransfer_refl].
  - intros id r Hget. apply (keepsTransfers_marked _ _ (broadcast raw w)).
    exact Hget.
Qed.


Variable ledger : string -> Connection.

Lemma attempt_keepsTransfers tx w :
  keepsTransfers w (snd (attempt ledger tx w)).
Proof.
  unfold attempt, tryCatch, bind, deref, gets, ret. cbn beta iota.
  match goal with
  | |- context [processTransaction ?c ?live w] =>
      pose proof (processTransaction_Processed c live w) as HP;
      destruct (processTransaction c live w) as [[[]|msg] w']
  end; cbn [snd] in *; eapply Processed_keepsTransfers; eassumption.
Qed.

Lemma forEach_keepsTransfers txs : forall w,
  keepsTransfers w (snd (forEach txs (attempt ledger) w)).
Proof.
  induction txs as [|tx txs IH]; intros w.
  - apply keepsTransfers_refl.
  - rewrite forEach_cons. eapply keepsTransfers_trans; [|apply IH].
    apply attempt_keepsTransfers.
Qed.

Lemma forEach_returns txs : forall w,
  fst (forEach txs (attempt ledger) w) = Return tt.
Proof.
  induction txs as [|tx txs IH]; intros w; [reflexivity|].
  rewrite forEach_cons. apply IH.
Qed.

End KeptFacts.

Section RunProperties.
Context {platform : Platform}.
Variable keypair : Keypair.

Lemma step_keepsTransfers a w : keepsTransfers w (step keypair a w).
Proof.
  destruct a as [pk nm|s h|ledger]; cbn [step].
  - intros id r Hget. exists r. split; [exact Hget|apply sameTransfer_refl].
  - destruct (relayTransaction_returns keypair s h w) as (r & w' & E & HA).
    rewrite E. cbn [snd]. intros id r0 Hget. exists r0.
    split; [|apply sameTransfer_refl].
    now apply (Admission_kept _ _ _ _ _ _ HA).
  - rewrite processTransactions_forEach. apply forEach_keepsTransfers.
Qed.

Lemma run_keepsTransfers acts : forall w,
  keepsTransfers w (run keypair acts w).
Proof.
  unfold run. induction acts as [|a acts IH]; intros w; cbn.
  - apply keepsTransfers_refl.
  - eapply keepsTransfers_trans; [apply step_keepsTransfers|apply IH].
Qed.

(** X8.  In every reachable state the store is keyed by the records'
    own identifiers: no two stored records share a signature, and the
    records [getAllTransactions] lists are exactly those
    [getTransaction] finds under their signature. *)
Theorem reachable_store_keyed_by_signature acts :
  let d := db (run keypair acts initialWorld) in
  NoDup (map signature (Db.getAllTransactions d))
  /\ forall r, In r (Db.getAllTransactions d)
               <-> Db.getTransaction d (signature r) = Some r.
Proof.
  cbv zeta. pose proof (reachable_accounted keypair acts) as [Hwk _].
  set (d := db (run keypair acts initialWorld)) in *.
  unfold Db.getAllTransactions. split.
  - rewrite wellKeyed_signatures by assumption. apply Hwk.
  - intros r. split.
    + intros Hin. unfold JsMap.values in Hin. apply in_map_iff in Hin.
      destruct Hin as ([k r'] & Heq & Hin). cbn in Heq. subst r'.
      destruct Hwk as [Hnd Hkey]. rewrite (Hkey _ _ Hin).
      now apply JsMapFacts.In_get.
    + intros Hget. apply JsMapFacts.get_In in Hget.
      unfold JsMap.values. apply in_map_iff. now exists (signature r, r).
Qed.

(** X9.  Whatever is done afterwards (registrations, admissions, cycles
    of the loop, against any node), a stored record stays stored under
    its identifier and keeps its signature, serialized transaction,
    sender, recipient, amount, last valid block height and creation date:
    only [status] and [updatedAt] ever change. *)
Theorem stored_transfer_never_rewritten more w id r :
  Db.getTransaction (db w) id = Some r ->
  exists r',
    Db.getTransaction (db (run keypair more w)) id = Some r'
    /\ sameTransfer r r'.
Proof. apply run_keepsTransfers. Qed.

(** X11.  A cycle of the loop never throws, whatever the node answers and
    whatever is stored: every error of a record's processing is caught
    in the loop. *)
Theorem cycle_never_throws ledger w :
  fst (processTransactions ledger w) = Return tt.
Proof. rewrite processTransactions_forEach. apply forEach_returns. Qed.

(** X12.  A cycle of the loop, from any reachable state and against any
    node, neither adds nor removes nor reorders records, and leaves the
    users alone: the signatures [getAllTransactions] lists are the same
    before and after. *)
Theorem cycle_adds_and_removes_nothing acts ledger :
  let w := run keypair acts initialWorld in
  let w' := snd (processTransactions ledger w) in
  map signature (Db.getAllTransactions (db w'))
  = map signature (Db.getAllTransactions (db w))
  /\ users (db w') = users (db w).
Proof.
  cbv zeta. pose proof (reachable_accounted keypair acts) as Hacc.
  destruct (processTransactions_accounted ledger _ Hacc) as (Hacc' & _ & Hu & Hk).
  split; [|exact Hu]. unfold Db.getAllTransactions.
  rewrite !wellKeyed_signatures; [exact Hk|apply Hacc|apply Hacc'].
Qed.

End RunProperties.

Section ProcessingProperties.
Context {platform : Platform}.

(** X13.  When the processing of a record throws (the stored transaction
    does not decode, or a query of the node fails), nothing has been
    written before: no status is changed, nothing is broadcast, no receipt
    is sent. *)
Theorem failed_processing_changes_nothing connection tx w message :
  fst (processTransaction connection tx w) = Throw message ->
  snd (processTransaction connection tx w) = w.
Proof.
  unfold processTransaction, handleNullStatus, handleExpiredBlockhash,
    handleExistingStatus.
  unfold deref, sendReceipt, tryCatch, bind, lift, gets, emit, ret.
  repeat (rewrite ?db_updateTransactionStatus_run; split_head);
    rewrite ?db_updateTransactionStatus_run; cbn [fst snd];
    intros H; try discriminate; reflexivity.
Qed.




(** X14.  The broadcast: for a record the node has no status for and
    whose blockhash the node says is valid, the transaction is sent; when
    the node takes it, a [CREATED] record becomes [SUBMITTED] and a record
    in another state is sent again and left as it is; when the node
    refuses it, the error is swallowed and the record is left as it is.
    The call returns in each case. *)
Theorem broadcast_submits_created_record connection tx t sig raw w :
  Transaction_from (base64_decode (serializedTransaction tx)) = Return t ->
  Transaction_signature t = Some sig ->
  getSignatureStatuses connection (bs58_encode sig) false = Return None ->
  isBlockhashValid connection (recentBlockhash t) = Return true ->
  Transaction_serialize t = Return raw ->
  processTransaction connection tx w
  = (Return tt,
     match sendRawTransaction connection raw with
     | Return _ =>
         if TransactionStatus_eqb (status tx) CREATED
         then marked (signature tx) SUBMITTED (broadcast raw w)
         else broadcast raw w
     | Throw _ => broadcast raw w
     end).
Proof.
  intros Hd Hs Hq Hv Hser.
  unfold processTransaction, handleNullStatus.
  unfold tryCatch, bind, lift, emit, ret.
  rewrite Hd. cbn beta iota. rewrite Hs, Hq. cbn beta iota.
  rewrite Hv, Hser. cbn beta iota.
  destruct (sendRawTransaction connection raw); [|reflexivity].
  destruct (TransactionStatus_eqb (status tx) CREATED); [|reflexivity].
  now rewrite db_updateTransactionStatus_run.
Qed.

End ProcessingProperties.

Section CycleProperties.
Context {platform : Platform}.
Variable keypair : Keypair.


End CycleProperties.

Section AdmissionProperties.
Context {platform : Platform}.
Variable keypair : Keypair.

Lemma validateTransaction_registered d t vs vr va :
  validateTransaction keypair d t = Return (Valid vs vr va) ->
  Db.isUserRegistered d vs = true /\ Db.isUserRegistered d vr = true.
Proof.
  unfold validateTransaction, getRecipientFromCreateAta, bindO, at_index.
  repeat split_head; intros H; try discriminate; inv_return.
  repeat match goal with
  | E : negb _ = false |- _ => apply negb_false_iff in E
  end.
  auto.
Qed.

Lemma Admission_identifier s h w r w' id :
  Admission keypair s h w r w' ->
  transactionId r = Some id ->
  r = relaySuccess id /\ Db.getTransaction (db w') id <> None.
Proof.
  intros HA Hid.
  assert (Hs : success r = true) by (destruct HA; now try discriminate).
  destruct (Admission_success_stored _ _ _ _ _ _ HA Hs)
    as (t & vs & vr & va & signed & sig & _ & _ & _ & _ & _ & -> & Hst & _).
  cbn in Hid. inversion Hid. subst id. auto.
Qed.

Lemma accepted_id_stays_stored s h w r w1 more id :
  relayTransaction keypair s h w = (Return r, w1) ->
  transactionId r = Some id ->
  Db.getTransaction (db (run keypair more w1)) id <> None.
Proof.
  intros E Hid. apply relayTransaction_inv in E.
  destruct (Admission_identifier _ _ _ _ _ _ E Hid) as [_ Hst].
  destruct (Db.getTransaction (db w1) id) as [r0|] eqn:Hget; [|congruence].
  destruct (run_keepsTransfers keypair more w1 id r0 Hget) as (r' & Hr' & _).
  congruence.
Qed.

(** X18.  An identifier the relayer has returned can be queried ever
    after: whatever registrations, admissions and cycles follow,
    [getTransactionStatus] answers with a status and no error, and does
    not change anything. *)
Theorem accepted_id_keeps_a_status s h w r w1 more id :
  relayTransaction keypair s h w = (Return r, w1) ->
  transactionId r = Some id ->
  let w2 := run keypair more w1 in
  exists st, getTransactionStatus id w2 = (Return (Some st, None), w2).
Proof.
  intros E Hid. cbv zeta.
  pose proof (accepted_id_stays_stored _ _ _ _ _ more _ E Hid) as Hst.
  unfold getTransactionStatus, bind, gets, ret.
  destruct (Db.getTransaction (db (run keypair more w1)) id) as [r0|];
    [|congruence].
  now exists (status r0).
Qed.

(** X19.  A call of [relayTransaction] leaves the users alone and either
    leaves the records as they are or appends one record: the call then
    succeeds with the record's signature as identifier, no record was
    stored under it, the record is [CREATED], carries the expiry height
    handed in, and its sender and recipient are registered. *)
Theorem admission_appends_at_most_one_created_record s h w :
  let w' := snd (relayTransaction keypair s h w) in
  users (db w') = users (db w)
  /\ (Db.getAllTransactions (db w') = Db.getAllTransactions (db w)
      \/ exists record,
           Db.getAllTransactions (db w')
           = (Db.getAllTransactions (db w) ++ [record])%list
           /\ fst (relayTransaction keypair s h w)
              = Return (relaySuccess (signature record))
           /\ Db.getTransaction (db w) (signature record) = None
           /\ status record = CREATED
           /\ lastValidBlockHeight record = h
           /\ Db.isUserRegistered (db w) (sender record) = true
           /\ Db.isUserRegistered (db w) (recipient record) = true).
Proof.
  cbv zeta.
  destruct (relayTransaction_returns keypair s h w) as (r & w' & E & HA).
  rewrite E. cbn [fst snd].
  split; [now apply (Admission_kept _ _ _ _ _ _ HA)|].
  destruct HA
    as [| | |t vs vr va signed sig raw Hd Hv Hp Hm Hs Hnone record];
    try (now left).
  right. exists record. cbn [db].
  destruct (validateTransaction_registered _ _ _ _ _ Hv) as [Hrs Hrr].
  assert (Hsig : signature record = base64_encode sig) by reflexivity.
  split; [|rewrite Hsig; repeat split; auto].
  unfold Db.getAllTransactions, Db.addTransaction, JsMap.has.
  unfold Db.getTransaction in Hnone. rewrite Hsig, Hnone.
  cbn [negb transactions]. now apply values_set_absent.
Qed.

(** X20.  [relayTransaction] never throws, and its result is of one of two
    kinds: a success with an identifier under which a record is then
    stored, or a failure with a reason, which leaves the database as it
    was. *)
Theorem admission_result_well_formed s h w :
  exists r w',
    relayTransaction keypair s h w = (Return r, w')
    /\ ((exists id, r = relaySuccess id
                    /\ Db.getTransaction (db w') id <> None)
        \/ (exists reason, r = relayFailure reason /\ db w' = db w)).
Proof.
  destruct (relayTransaction_returns keypair s h w) as (r & w' & E & HA).
  exists r, w'. split; [exact E|].
  destruct (success r) eqn:Hs.
  - left.
    destruct (Admission_success_stored _ _ _ _ _ _ HA Hs)
      as (t & vs & vr & va & signed & sig & _ & _ & _ & _ & _ & -> & Hst & _).
    eauto.
  - right. destruct (Admission_failure _ _ _ _ _ _ HA Hs) as [Hdb _].
    destruct HA; try discriminate; eauto.
Qed.

End AdmissionProperties.

Section PollProperties.
Context {platform : Platform}.

Lemma poll_ends relayerAt id fuel : forall attempts,
  fuel <> 0 ->
  attempts + fuel = maxAttempts ->
  exists e n,
    poll relayerAt id attempts fuel = Some (e, n)
    /\ attempts < n <= maxAttempts
    /\ (forall message, e <> PollThrew message).
Proof.
  induction fuel as [|fuel IH]; intros attempts Hne Hsum; [congruence|].
  cbn [poll]. unfold getTransactionStatus, bind, gets, ret. cbn [fst].
  destruct (Db.getTransaction (db (relayerAt (S attempts))) id) as [r|];
    cbn [fst].
  - destruct (TransactionStatus_eqb (status r) CONFIRMED
              || TransactionStatus_eqb (status r) FINALIZED).
    { exists (PollSucceeded (status r)), (S attempts).
      split; [reflexivity|]. split; [lia|discriminate]. }
    destruct (TransactionStatus_eqb (status r) FAILED).
    { exists PollFailed, (S attempts).
      split; [reflexivity|]. split; [lia|discriminate]. }
    destruct (Nat.leb maxAttempts (S attempts)) eqn:El.
    { exists PollStopped, (S attempts).
      split; [reflexivity|]. split; [lia|discriminate]. }
    apply Nat.leb_gt in El.
    destruct (IH (S attempts)) as (e & n & Hp & Hn & Ht); [lia|lia|].
    exists e, n. split; [exact Hp|]. split; [lia|exact Ht].
  - exists PollNotFound, (S attempts).
    split; [reflexivity|]. split; [lia|discriminate].
Qed.

(** X21.  The polling of the client always ends: whatever the relayer
    answers, it stops after at least one and at most sixty status
    queries, and never by an error. *)
Theorem polling_ends_within_sixty_queries relayerAt id :
  exists e n,
    pollTransactionStatus relayerAt id = Some (e, n)
    /\ 1 <= n <= 60
    /\ (forall message, e <> PollThrew message).
Proof.
  destruct (poll_ends relayerAt id maxAttempts 0) as (e & n & Hp & Hn & Ht);
    [discriminate|reflexivity|].
  exists e, n. split; [exact Hp|]. split; [|exact Ht].
  unfold maxAttempts in Hn. lia.
Qed.

Lemma pending_spec st :
  pending st
  = negb (TransactionStatus_eqb st CONFIRMED || TransactionStatus_eqb st FINALIZED)
    && negb (TransactionStatus_eqb st FAILED).
Proof. now destruct st. Qed.

Lemma poll_result relayerAt id fuel : forall attempts e n,
  poll relayerAt id attempts fuel = Some (e, n) ->
  attempts < n
  /\ (forall k, attempts < k < n ->
        exists st, statusOf (relayerAt k) id = Some st /\ pending st = true)
  /\ match e with
     | PollNotFound => statusOf (relayerAt n) id = None
     | PollSucceeded st =>
         statusOf (relayerAt n) id = Some st
         /\ (st = CONFIRMED \/ st = FINALIZED)
     | PollFailed => statusOf (relayerAt n) id = Some FAILED
     | PollStopped =>
         maxAttempts <= n
         /\ exists st, statusOf (relayerAt n) id = Some st
                       /\ pending st = true
     | PollThrew _ => False
     end.
Proof.
  induction fuel as [|fuel IH]; intros attempts e n; [discriminate|].
  cbn [poll]. unfold getTransactionStatus, bind, gets, ret. cbn [fst].
  unfold statusOf.
  destruct (Db.getTransaction (db (relayerAt (S attempts))) id) as [r|] eqn:Hget;
    cbn [fst].
  - pose proof (pending_spec (status r)) as Hpend.
    destruct (TransactionStatus_eqb (status r) CONFIRMED
              || TransactionStatus_eqb (status r) FINALIZED) eqn:Eok.
    { intros H. inversion H. subst. split; [lia|]. split; [intros k; lia|].
      rewrite Hget. split; [reflexivity|].
      apply orb_prop in Eok.
      destruct Eok as [Eq|Eq]; apply TransactionStatus_eqb_eq in Eq; auto. }
    destruct (TransactionStatus_eqb (status r) FAILED) eqn:Ef.
    { intros H. inversion H. subst. split; [lia|]. split; [intros k; lia|].
      rewrite Hget. cbn. f_equal. now apply TransactionStatus_eqb_eq. }
    cbn in Hpend.
    destruct (Nat.leb maxAttempts (S attempts)) eqn:El.
    { intros H. inversion H. subst. split; [lia|]. split; [intros k; lia|].
      apply Nat.leb_le in El. split; [exact El|].
      rewrite Hget. now exists (status r). }
    intros H. destruct (IH _ _ _ H) as (Hlt & Hbefore & Hend).
    split; [lia|]. split; [|exact Hend].
    intros k Hk. destruct (Nat.eq_dec k (S attempts)) as [->|Hne].
    + rewrite Hget. now exists (status r).
    + apply Hbefore. lia.
  - intros H. inversion H. subst. split; [lia|]. split; [intros k; lia|].
    now rewrite Hget.
Qed.

(** X22.  How the polling ends: every query before the last found the
    record in a state that is still pending ([CREATED], [SUBMITTED] or
    [PROCESSED]); the last query found no record, or [CONFIRMED] or
    [FINALIZED] (success), or [FAILED], or it was the sixtieth and the
    record was still pending. *)
Theorem polling_stops_at_first_settled_status relayerAt id e n :
  pollTransactionStatus relayerAt id = Some (e, n) ->
  (forall k, 1 <= k < n ->
     exists st, statusOf (relayerAt k) id = Some st /\ pending st = true)
  /\ match e with
     | PollNotFound => statusOf (relayerAt n) id = None
     | PollSucceeded st =>
         statusOf (relayerAt n) id = Some st
         /\ (st = CONFIRMED \/ st = FINALIZED)
     | PollFailed => statusOf (relayerAt n) id = Some FAILED
     | PollStopped =>
         n = 60
         /\ exists st, statusOf (relayerAt n) id = Some st
                       /\ pending st = true
     | PollThrew _ => False
     end.
Proof.
  intros H.
  destruct (poll_ends relayerAt id maxAttempts 0) as (e' & n' & Hp & Hn & _);
    [discriminate|reflexivity|].
  unfold pollTransactionStatus in H. rewrite H in Hp. inversion Hp. subst e' n'.
  destruct (poll_result _ _ _ _ _ _ H) as (_ & Hbefore & Hend).
  split; [intros k Hk; apply Hbefore; lia|].
  destruct e; auto.
  destruct Hend as [Hmax Hst]. split; [|exact Hst].
  unfold maxAttempts in *. lia.
Qed.

End PollProperties.

Section ClientProperties.
Context {platform : Platform}.
Variable keypair : Keypair.

(** X23.  Client and relayer together: polling an identifier the relayer
    has returned never ends with "not found", whatever the relayer and the
    workflow do between the queries. *)
Theorem polling_an_accepted_id_finds_it s h w r w1 id later :
  relayTransaction keypair s h w = (Return r, w1) ->
  transactionId r = Some id ->
  forall n,
    pollTransactionStatus (fun k => run keypair (later k) w1) id
    <> Some (PollNotFound, n).
Proof.
  intros E Hid n H.
  apply poll_result in H. destruct H as (_ & _ & Hnone).
  cbn beta in Hnone. unfold statusOf in Hnone.
  pose proof (accepted_id_stays_stored keypair _ _ _ _ _ (later n) _ E Hid).
  destruct (Db.getTransaction (db (run keypair (later n) w1)) id);
    [discriminate|congruence].
Qed.

End ClientProperties.

(** ** Overlapping cycles: what holds under every schedule, and what only
    where cycles do not overlap *)

Section OverlapFacts.
Context {platform : Platform}.

(** A call of [processTransaction] in the loop handles the record as it
    is stored when the call acts. *)
Lemma attempt_handles_live ledger tx w :
  snd (attempt ledger tx w)
  = snd (processTransaction (ledger (signature tx))
           (match Db.getTransaction (db w) (signature tx) with
            | Some live => live
            | None => tx
            end) w).
Proof.
  unfold attempt, tryCatch, bind, deref, gets, ret.
  now destruct (processTransaction _ _ w) as [[[]|msg] w'].
Qed.

Lemma Processed_frame connection tx w w' id :
  Processed connection tx w w' ->
  signature tx <> id ->
  Db.getTransaction (db w') id = Db.getTransaction (db w) id.
Proof.
  intros HP Hne.
  destruct HP; rewrite ?db_receipted, ?getTransaction_marked_other by assumption;
    reflexivity.
Qed.

Lemma wellKeyed_marked sig st w :
  wellKeyed (db w) -> wellKeyed (db (marked sig st w)).
Proof.
  intros H. unfold marked, db_updateTransactionStatus.
  destruct (Db.getTransaction (db w) sig); cbn [snd db]; [|exact H].
  now apply updateTransactionStatus_wellKeyed.
Qed.

Lemma Processed_wellKeyed connection tx w w' :
  Processed connection tx w w' -> wellKeyed (db w) -> wellKeyed (db w').
Proof.
  intros HP H.
  destruct HP; rewrite ?db_receipted; try apply wellKeyed_marked; exact H.
Qed.

Lemma Processed_users connection tx w w' :
  Processed connection tx w w' -> users (db w') = users (db w).
Proof.
  intros HP.
  destruct HP; rewrite ?db_receipted, ?users_marked; reflexivity.
Qed.

(** The signature of the record a call handles is the one of the record
    the snapshot holds. *)
Lemma live_signature w tx :
  wellKeyed (db w) ->
  signature (match Db.getTransaction (db w) (signature tx) with
             | Some live => live
             | None => tx
             end)
  = signature tx.
Proof.
  intros Hwk.
  destruct (Db.getTransaction (db w) (signature tx)) as [l|] eqn:E;
    [|reflexivity].
  eapply wellKeyed_get_signature; eassumption.
Qed.

Variable ledger : string -> Connection.

Lemma attempt_wellKeyed tx w :
  wellKeyed (db w) -> wellKeyed (db (snd (attempt ledger tx w))).
Proof.
  intros H. rewrite attempt_handles_live.
  eapply Processed_wellKeyed; [apply processTransaction_Processed|exact H].
Qed.

Lemma attempt_frame tx w id :
  wellKeyed (db w) ->
  signature tx <> id ->
  Db.getTransaction (db (snd (attempt ledger tx w))) id
  = Db.getTransaction (db w) id.
Proof.
  intros Hwk Hne. rewrite attempt_handles_live.
  eapply Processed_frame; [apply processTransaction_Processed|].
  now rewrite live_signature.
Qed.

Lemma attempt_users tx w :
  users (db (snd (attempt ledger tx w))) = users (db w).
Proof.
  rewrite attempt_handles_live.
  eapply Processed_users. apply processTransaction_Processed.
Qed.

Lemma forEach_wellKeyed txs : forall w,
  wellKeyed (db w) ->
  wellKeyed (db (snd (forEach txs (attempt ledger) w))).
Proof.
  induction txs as [|tx txs IH]; intros w H; [exact H|].
  rewrite forEach_cons. apply IH. now apply attempt_wellKeyed.
Qed.

Lemma forEach_frame txs id : forall w,
  wellKeyed (db w) ->
  ~ In id (map signature txs) ->
  Db.getTransaction (db (snd (forEach txs (attempt ledger) w))) id
  = Db.getTransaction (db w) id.
Proof.
  induction txs as [|tx txs IH]; intros w Hwk Hnot; [reflexivity|].
  rewrite forEach_cons. rewrite IH.
  - apply attempt_frame; [exact Hwk|]. intros E. apply Hnot. now left.
  - now apply attempt_wellKeyed.
  - intros Hin. apply Hnot. now right.
Qed.

End OverlapFacts.

Section ScheduleFacts.
Context {platform : Platform}.
Variable keypair : Keypair.

Lemma step_wellKeyed a w :
  wellKeyed (db w) -> wellKeyed (db (step keypair a w)).
Proof.
  intros H. destruct a as [pk nm|s h|ledger]; cbn [step].
  - exact H.
  - destruct (relayTransaction_returns keypair s h w) as (r & w' & E & HA).
    rewrite E. cbn [snd].
    destruct HA; cbn [db validated]; try exact H.
    now apply addTransaction_wellKeyed.
  - rewrite processTransactions_forEach. now apply forEach_wellKeyed.
Qed.

Lemma advance_cases cycle connection s :
  advance cycle connection s = s
  \/ exists tx rest,
       nth_error (inflight s) cycle = Some (tx :: rest)
       /\ advance cycle connection s
          = {| world := snd (attempt (fun _ => connection) tx (world s));
               inflight := replaceAt cycle rest (inflight s) |}.
Proof.
  unfold advance.
  destruct (nth_error (inflight s) cycle) as [[|tx rest]|]; eauto.
Qed.

Lemma move_wellKeyed m s :
  wellKeyed (db (world s)) -> wellKeyed (db (world (move keypair m s))).
Proof.
  intros H. destruct m as [a| |cycle connection]; cbn [move world].
  - now apply step_wellKeyed.
  - exact H.
  - destruct (advance_cases cycle connection s) as [->|(tx & rest & _ & ->)];
      [exact H|].
    cbn [world]. now apply attempt_wellKeyed.
Qed.

Lemma schedule_wellKeyed ms : forall s,
  wellKeyed (db (world s)) ->
  wellKeyed (db (world (schedule keypair ms s))).
Proof.
  unfold schedule. induction ms as [|m ms IH]; intros s H; cbn; auto.
  apply IH. now apply move_wellKeyed.
Qed.

Lemma initial_wellKeyed : wellKeyed (db (world initialScheduler)).
Proof. split; [constructor|]. intros k r []. Qed.

Lemma schedule_app a b s :
  schedule keypair (a ++ b) s = schedule keypair b (schedule keypair a s).
Proof. unfold schedule. apply fold_left_app. Qed.

(** The rest of a snapshot, within the records still to be handled. *)
Lemma waiting_replaceAt (cs : list (list TransactionRecord)) : forall n tx rest,
  nth_error cs n = Some (tx :: rest) ->
  exists before after,
    concat cs = (before ++ tx :: rest ++ after)%list
    /\ concat (replaceAt n rest cs) = (before ++ rest ++ after)%list.
Proof.
  induction cs as [|c cs IH]; intros n tx rest H.
  - destruct n; discriminate.
  - destruct n as [|n]; cbn in H.
    + inversion H. subst c. exists [], (concat cs). cbn.
      split; reflexivity.
    + destruct (IH _ _ _ H) as (before & after & E1 & E2).
      exists (c ++ before)%list, after. cbn [replaceAt concat].
      rewrite E1, E2. now rewrite <- !app_assoc.
Qed.

(** A run is a schedule whose cycles nothing interrupts. *)
Lemma schedule_run acts : forall s,
  schedule keypair (map MvAct acts) s
  = {| world := run keypair acts (world s); inflight := inflight s |}.
Proof.
  unfold schedule, run. induction acts as [|a acts IH]; intros s; cbn.
  - now destruct s.
  - now rewrite IH.
Qed.

(** A cycle of a run is the timer firing and the node answering the
    calls of the new cycle one after the other. *)
Lemma cycle_as_moves ledger (txs : list TransactionRecord) : forall s n,
  nth_error (inflight s) n = Some txs ->
  world (schedule keypair
           (map (fun tx => MvAdvance n (ledger (signature tx))) txs) s)
  = snd (forEach txs (attempt ledger) (world s)).
Proof.
  unfold schedule. induction txs as [|tx txs IH]; intros s n H; [reflexivity|].
  cbn [map fold_left move]. rewrite forEach_cons.
  unfold advance at 1. rewrite H.
  rewrite IH with (n := n); [reflexivity|].
  cbn [inflight]. clear IH. revert n H.
  induction (inflight s) as [|c cs IHc]; intros n H; destruct n; try discriminate.
  - reflexivity.
  - cbn in *. now apply IHc.
Qed.

End ScheduleFacts.

Section NoOverlap.
Context {platform : Platform}.
Variable keypair : Keypair.

Lemma idle_waiting s : idle s = true -> waiting s = [].
Proof. unfold idle. now destruct (waiting s). Qed.

Lemma initial_settled : settled initialScheduler.
Proof.
  split; [apply initial_accounted|]. split; [constructor|]. intros tx [].
Qed.

Lemma live_kept w w' txs :
  (forall id r, Db.getTransaction (db w) id = Some r ->
                Db.getTransaction (db w') id = Some r) ->
  live w txs -> live w' txs.
Proof.
  intros Hk Hl tx Hin. destruct (Hl tx Hin) as [Hget Hterm]. auto.
Qed.

Lemma NoDup_remove_middle {A : Type} (a b : list A) x :
  NoDup (a ++ x :: b) -> NoDup (a ++ b) /\ ~ In x (a ++ b).
Proof. apply NoDup_remove. Qed.

Lemma advance_settled cycle connection s :
  settled s -> settled (advance cycle connection s).
Proof.
  intros Hs.
  destruct (advance_cases cycle connection s)
    as [->|(tx & rest & Hnth & ->)]; [exact Hs|].
  destruct Hs as (Hacc & Hnd & Hlive).
  destruct (waiting_replaceAt _ _ _ _ Hnth) as (before & after & E1 & E2).
  unfold settled, waiting in *. cbn [world inflight].
  rewrite E1 in Hnd, Hlive. rewrite E2.
  assert (Hin : In tx (before ++ tx :: rest ++ after))
    by (apply in_or_app; right; now left).
  destruct (Hlive tx Hin) as [Hget Hterm].
  destruct (attempt_accounted (fun _ => connection) tx (world s) Hacc Hget Hterm)
    as (H1 & H2 & _).
  rewrite map_app in Hnd. cbn [map] in Hnd.
  apply NoDup_remove in Hnd. destruct Hnd as [Hnd Hnot].
  rewrite <- map_app in Hnd, Hnot.
  split; [exact H1|]. split; [exact Hnd|].
  intros tx' Hin'.
  assert (Hin'' : In tx' (before ++ tx :: rest ++ after)).
  { apply in_app_or in Hin'. apply in_or_app.
    destruct Hin' as [|Hin']; [now left|right; now right]. }
  destruct (Hlive tx' Hin'') as [Hget' Hterm']. split; [|exact Hterm'].
  rewrite H2; [exact Hget'|].
  intros Heq. apply Hnot. rewrite Heq. now apply in_map.
Qed.

Lemma move_settled m s :
  (if startsCycle m then idle s else true) = true ->
  settled s -> settled (move keypair m s).
Proof.
  intros Hok Hs. pose proof Hs as (Hacc & Hnd & Hlive).
  destruct m as [[pk nm|t h|ledger]| |cycle connection]; cbn [move].
  - split; [now apply (step_accounted keypair (ActAddUser pk nm))|].
    split; [exact Hnd|]. exact Hlive.
  - split; [now apply step_accounted|]. split; [exact Hnd|].
    cbn [world step].
    destruct (relayTransaction_returns keypair t h (world s))
      as (r & w' & E & HA).
    rewrite E. cbn [snd].
    eapply live_kept; [|exact Hlive].
    apply (Admission_kept _ _ _ _ _ _ HA).
  - split; [now apply step_accounted|]. cbn in Hok.
    pose proof (idle_waiting _ Hok) as Hw.
    unfold waiting in *. cbn [inflight world].
    rewrite Hw. split; [constructor|]. intros tx [].
  - cbn in Hok. apply idle_waiting in Hok.
    unfold settled, waiting in *. cbn [world inflight].
    rewrite concat_app, Hok. cbn [concat app]. rewrite app_nil_r.
    split; [exact Hacc|]. apply snapshot_spec. apply Hacc.
  - now apply advance_settled.
Qed.

Lemma schedule_settled ms : forall s,
  oneCycleAtATime keypair ms s = true ->
  settled s -> settled (schedule keypair ms s).
Proof.
  unfold schedule. induction ms as [|m ms IH]; intros s Hok Hs; cbn; auto.
  cbn in Hok. apply andb_prop in Hok. destruct Hok as [H1 H2].
  apply IH; [exact H2|]. now apply move_settled.
Qed.

Lemma move_terminal_kept m s id r :
  settled s ->
  Db.getTransaction (db (world s)) id = Some r ->
  terminal (status r) = true ->
  Db.getTransaction (db (world (move keypair m s))) id = Some r.
Proof.
  intros (Hacc & Hnd & Hlive) Hget Hterm.
  destruct m as [a| |cycle connection]; cbn [move world].
  - now apply step_terminal_kept.
  - exact Hget.
  - destruct (advance_cases cycle connection s)
      as [->|(tx & rest & Hnth & ->)]; [exact Hget|].
    destruct (waiting_replaceAt _ _ _ _ Hnth) as (before & after & E1 & _).
    unfold waiting in Hlive. rewrite E1 in Hlive.
    assert (Hin : In tx (before ++ tx :: rest ++ after))
      by (apply in_or_app; right; now left).
    destruct (Hlive tx Hin) as [Hget' Hterm'].
    destruct (attempt_accounted (fun _ => connection) tx (world s)
                Hacc Hget' Hterm') as (_ & H2 & _).
    cbn [world]. rewrite H2; [exact Hget|].
    intros Heq. rewrite Heq, Hget in Hget'. inversion Hget'. subst tx.
    congruence.
Qed.

Lemma schedule_terminal_kept ms : forall s id r,
  oneCycleAtATime keypair ms s = true ->
  settled s ->
  Db.getTransaction (db (world s)) id = Some r ->
  terminal (status r) = true ->
  Db.getTransaction (db (world (schedule keypair ms s))) id = Some r.
Proof.
  unfold schedule.
  induction ms as [|m ms IH]; intros s id r Hok Hs Hget Hterm; cbn; auto.
  cbn in Hok. apply andb_prop in Hok. destruct Hok as [H1 H2].
  apply IH; [exact H2|now apply move_settled| |exact Hterm].
  now apply move_terminal_kept.
Qed.

(** The trace of a schedule without overlap accounts for the terminal
    states, and a terminal record stays as it is. *)
Lemma terminal_once_without_overlap moves more id :
  oneCycleAtATime keypair moves initialScheduler = true ->
  let s := schedule keypair moves initialScheduler in
  accounted (world s)
  /\ (oneCycleAtATime keypair more s = true ->
      forall r, Db.getTransaction (db (world s)) id = Some r ->
                terminal (status r) = true ->
                Db.getTransaction (db (world (schedule keypair more s))) id
                = Some r
                /\ accounted (world (schedule keypair more s))).
Proof.
  intros Hok s.
  pose proof (schedule_settled moves _ Hok initial_settled) as Hs. fold s in Hs.
  split; [apply Hs|]. intros Hmore r Hget Hterm.
  split; [now apply schedule_terminal_kept|].
  now apply (schedule_settled more s Hmore Hs).
Qed.

(** The receipt, where cycles do not overlap: in every state of a
    schedule in which no cycle starts before the one before it has
    handled its records, one receipt has been sent for every [FINALIZED]
    record and none for the others, and a [FINALIZED] record stays so
    without another receipt. *)
Lemma receipt_sent_once_without_overlap moves more id :
  oneCycleAtATime keypair moves initialScheduler = true ->
  let s := schedule keypair moves initialScheduler in
  occurrences (isReceiptFor id) (trace (world s))
  = match statusOf (world s) id with Some FINALIZED => 1 | _ => 0 end
  /\ (oneCycleAtATime keypair more s = true ->
      statusOf (world s) id = Some FINALIZED ->
      statusOf (world (schedule keypair more s)) id = Some FINALIZED
      /\ occurrences (isReceiptFor id)
           (trace (world (schedule keypair more s))) = 1).
Proof.
  intros Hok s.
  destruct (terminal_once_without_overlap moves more id Hok) as [Hacc Hmore].
  fold s in Hacc, Hmore.
  split; [apply Hacc|]. intros Hok' Hfin. unfold statusOf in Hfin.
  destruct (Db.getTransaction (db (world s)) id) as [r|] eqn:Hget;
    [|discriminate].
  cbn in Hfin. injection Hfin as Hst.
  destruct (Hmore Hok' r eq_refl) as [Hkept [_ Hc]]; [now rewrite Hst|].
  assert (Hstat : statusOf (world (schedule keypair more s)) id
                  = Some FINALIZED).
  { unfold statusOf. rewrite Hkept. cbn. now rewrite Hst. }
  split; [exact Hstat|].
  destruct (Hc id) as [Hr _]. now rewrite Hstat in Hr.
Qed.

End NoOverlap.

Section Handling.
Context {platform : Platform}.



End Handling.

Section OverlapProperties.
Context {platform : Platform}.
Variable keypair : Keypair.


Lemma move_terminal_untouched m s id r :
  wellKeyed (db (world s)) ->
  Db.getTransaction (db (world s)) id = Some r ->
  terminal (status r) = true ->
  ~ In id (map signature (waiting s)) ->
  Db.getTransaction (db (world (move keypair m s))) id = Some r
  /\ ~ In id (map signature (waiting (move keypair m s))).
Proof.
  intros Hwk Hget Hterm Hnot.
  assert (Hsnap : ~ In id (map signature
                             (Db.getNonTerminalTransactions (db (world s))))).
  { intros Hin. apply in_map_iff in Hin. destruct Hin as (tx & Hsig & Hin).
    destruct (snapshot_spec _ Hwk) as [_ Hlive].
    destruct (Hlive tx Hin) as [Hget' Hnt].
    rewrite Hsig, Hget in Hget'. inversion Hget'. subst tx. congruence. }
  destruct m as [[pk nm|t h|ledger]| |cycle connection]; cbn [move world].
  - split; [exact Hget|exact Hnot].
  - split; [|exact Hnot]. cbn [step].
    destruct (relayTransaction_returns keypair t h (world s))
      as (r' & w' & E & HA).
    rewrite E. cbn [snd]. now apply (Admission_kept _ _ _ _ _ _ HA).
  - split; [|exact Hnot]. cbn [step].
    rewrite processTransactions_forEach. now rewrite forEach_frame.
  - split; [exact Hget|]. unfold waiting in *. cbn [inflight].
    rewrite concat_app, map_app. cbn [concat]. rewrite app_nil_r.
    intros Hin. apply in_app_or in Hin. tauto.
  - destruct (advance_cases cycle connection s)
      as [->|(tx & rest & Hnth & ->)]; [now split|].
    destruct (waiting_replaceAt _ _ _ _ Hnth) as (before & after & E1 & E2).
    unfold waiting in *. cbn [world inflight]. rewrite E1 in Hnot. rewrite E2.
    rewrite map_app in Hnot. cbn [map] in Hnot. rewrite map_app in Hnot.
    rewrite !map_app. split.
    + rewrite attempt_frame; [exact Hget|exact Hwk|].
      intros Heq. apply Hnot. apply in_or_app. right. now left.
    + intros Hin. apply Hnot. apply in_app_or in Hin. apply in_or_app.
      destruct Hin as [Hin|Hin]; [now left|right; right].
      exact Hin.
Qed.

Lemma schedule_terminal_untouched ms : forall s id r,
  wellKeyed (db (world s)) ->
  Db.getTransaction (db (world s)) id = Some r ->
  terminal (status r) = true ->
  ~ In id (map signature (waiting s)) ->
  Db.getTransaction (db (world (schedule keypair ms s))) id = Some r
  /\ ~ In id (map signature (waiting (schedule keypair ms s))).
Proof.
  unfold schedule.
  induction ms as [|m ms IH]; intros s id r Hwk Hget Hterm Hnot; cbn;
    [now split|].
  destruct (move_terminal_untouched m s id r Hwk Hget Hterm Hnot) as [H1 H2].
  apply IH; auto. now apply move_wellKeyed.
Qed.

(** X10.  Under every schedule, overlapping cycles included: a record
    that is [FINALIZED] or [FAILED] and that no cycle in flight has still
    to handle (no snapshot taken before it became terminal is waiting
    for it) is never written again, [updatedAt] included, and no later
    cycle takes it up.  In particular a terminal record never changes
    once the cycles that were in flight when it became terminal have
    finished. *)
Theorem terminal_record_changes_only_through_earlier_snapshot moves more id r :
  let s := schedule keypair moves initialScheduler in
  Db.getTransaction (db (world s)) id = Some r ->
  status r = FINALIZED \/ status r = FAILED ->
  ~ In id (map signature (waiting s)) ->
  Db.getTransaction (db (world (schedule keypair more s))) id = Some r
  /\ ~ In id (map signature (waiting (schedule keypair more s))).
Proof.
  cbv zeta. intros Hget Hterm Hnot.
  apply schedule_terminal_untouched; auto.
  - apply schedule_wellKeyed, initial_wellKeyed.
  - now destruct Hterm as [-> | ->].
Qed.

End OverlapProperties.

Section HandlingProperties.
Context {platform : Platform}.

(** X16.  What one handling of a record does to its state, whatever the
    state of the record when the node has answered (under overlapping
    cycles it can be any, terminal ones included): the state stays, or
    moves to a stronger state of the lifecycle, or moves back to
    [PROCESSED] from [CONFIRMED] or [FINALIZED], or leaves [FAILED] for
    [PROCESSED], [CONFIRMED] or [FINALIZED], or becomes [FAILED], the last
    only when the failure of the record is determined. *)
Theorem handling_moves_status connection tx w :
  Db.getTransaction (db w) (signature tx) = Some tx ->
  let after :=
    statusOf (snd (processTransaction connection tx w)) (signature tx) in
  after = Some (status tx)
  \/ (exists st, after = Some st /\ weaker (status tx) st)
  \/ (after = Some PROCESSED
      /\ (status tx = CONFIRMED \/ status tx = FINALIZED))
  \/ (status tx = FAILED
      /\ (after = Some PROCESSED \/ after = Some CONFIRMED
          \/ after = Some FINALIZED))
  \/ (after = Some FAILED /\ failureDetermined connection tx = true).
Proof.
  intros Hget. cbv zeta.
  assert (Hsame : statusOf w (signature tx) = Some (status tx))
    by (unfold statusOf; now rewrite Hget).
  pose proof (processTransaction_Processed connection tx w) as HP.
  destruct HP as [|raw|raw Hc|Hp|Hc Hf|Hf|Hd].
  - now left.
  - now left.
  - right. left. exists SUBMITTED.
    rewrite (statusOf_marked_same _ _ (broadcast raw w) tx) by exact Hget.
    split; [reflexivity|]. rewrite Hc. cbn. lia.
  - rewrite (statusOf_marked_same _ _ w tx) by exact Hget.
    destruct (status tx) eqn:Es; try congruence.
    + right. left. exists PROCESSED. split; [reflexivity|cbn; lia].
    + right. left. exists PROCESSED. split; [reflexivity|cbn; lia].
    + right. right. left. auto.
    + right. right. left. auto.
    + right. right. right. left. auto.
  - rewrite (statusOf_marked_same _ _ w tx) by exact Hget.
    destruct (status tx) eqn:Es; try congruence.
    + right. left. exists CONFIRMED. split; [reflexivity|cbn; lia].
    + right. left. exists CONFIRMED. split; [reflexivity|cbn; lia].
    + right. left. exists CONFIRMED. split; [reflexivity|cbn; lia].
    + right. right. right. left. auto.
  - unfold statusOf. rewrite db_receipted.
    fold (statusOf (marked (signature tx) FINALIZED w) (signature tx)).
    rewrite (statusOf_marked_same _ _ w tx) by exact Hget.
    destruct (status tx) eqn:Es; try congruence.
    + right. left. exists FINALIZED. split; [reflexivity|cbn; lia].
    + right. left. exists FINALIZED. split; [reflexivity|cbn; lia].
    + right. left. exists FINALIZED. split; [reflexivity|cbn; lia].
    + right. left. exists FINALIZED. split; [reflexivity|cbn; lia].
    + right. right. right. left. auto.
  - rewrite (statusOf_marked_same _ _ w tx) by exact Hget.
    right. right. right. right. auto.
Qed.

End HandlingProperties.

Section ReceiptsUnderOverlap.
Context {platform : Platform}.

(** An event that is neither a receipt nor a write of [FINALIZED]. *)
Lemma receiptsFollowFinalization_snoc w w' e :
  trace w' = (trace w ++ [e])%list ->
  keepsTransfers w w' ->
  (forall id, isReceiptFor id e = false) ->
  (forall id, isFinalizedMarkFor id e = false) ->
  receiptsFollowFinalization w -> receiptsFollowFinalization w'.
Proof.
  intros Htr Hk Hr Hf [Hcount Hcarry]. split.
  - intros id. rewrite Htr, !occurrences_snoc, Hr, Hf. now rewrite Hcount.
  - intros r Hin. rewrite Htr in Hin. apply in_app_or in Hin.
    destruct Hin as [Hin|[Heq|[]]].
    + destruct (Hcarry r Hin) as (Hst & l & Hget & Hsame).
      split; [exact Hst|]. destruct (Hk _ _ Hget) as (l' & Hget' & Hsame').
      exists l'. split; [exact Hget'|].
      eapply sameTransfer_trans; eassumption.
    + subst e. specialize (Hr (signature r)). cbn in Hr.
      now rewrite String.eqb_refl in Hr.
Qed.

Lemma receiptsFollowFinalization_broadcast raw w :
  receiptsFollowFinalization w -> receiptsFollowFinalization (broadcast raw w).
Proof.
  apply receiptsFollowFinalization_snoc with (e := EvSendRawTransaction raw);
    try reflexivity.
  intros id r Hget. exists r. split; [exact Hget|apply sameTransfer_refl].
Qed.

Lemma trace_marked sig st w :
  trace (marked sig st w)
  = (trace w ++ [EvUpdateTransactionStatus sig st])%list.
Proof.
  unfold marked, db_updateTransactionStatus.
  now destruct (Db.getTransaction (db w) sig).
Qed.

Lemma receiptsFollowFinalization_marked sig st w :
  st <> FINALIZED ->
  receiptsFollowFinalization w ->
  receiptsFollowFinalization (marked sig st w).
Proof.
  intros Hne.
  apply receiptsFollowFinalization_snoc
    with (e := EvUpdateTransactionStatus sig st).
  - apply trace_marked.
  - apply keepsTransfers_marked.
  - reflexivity.
  - intros id. now destruct st.
Qed.

Lemma receiptsFollowFinalization_finalized tx w :
  Db.getTransaction (db w) (signature tx) = Some tx ->
  receiptsFollowFinalization w ->
  receiptsFollowFinalization (receipted tx (marked (signature tx) FINALIZED w)).
Proof.
  intros Hget [Hcount Hcarry].
  assert (Hlive : Db.getTransaction (db (marked (signature tx) FINALIZED w))
                    (signature tx)
                  = Some {| signature := signature tx;
                            serializedTransaction := serializedTransaction tx;
                            sender := sender tx;
                            recipient := recipient tx;
                            amount := amount tx;
                            lastValidBlockHeight := lastValidBlockHeight tx;
                            status := FINALIZED;
                            createdAt := createdAt tx;
                            updatedAt := clock (ticks w) |}).
  { rewrite (marked_present _ _ _ _ Hget). cbn [db].
    now apply updateTransactionStatus_get_same. }
  rewrite (receipted_live _ _ _ Hlive). split; cbn [db trace].
  - intros id. rewrite trace_marked, !occurrences_snoc.
    cbn [isReceiptFor isFinalizedMarkFor signature]. rewrite Hcount. lia.
  - intros r Hin. apply in_app_or in Hin. destruct Hin as [Hin|[Heq|[]]].
    + rewrite trace_marked in Hin. apply in_app_or in Hin.
      destruct Hin as [Hin|[Heq|[]]]; [|discriminate].
      destruct (Hcarry r Hin) as (Hst & l & Hgetl & Hsame).
      split; [exact Hst|].
      destruct (keepsTransfers_marked (signature tx) FINALIZED w _ _ Hgetl)
        as (l' & Hget' & Hsame').
      exists l'. split; [exact Hget'|].
      eapply sameTransfer_trans; eassumption.
    + inversion Heq. subst r. cbn [signature status]. split; [reflexivity|].
      eexists. split; [exact Hlive|apply sameTransfer_refl].
Qed.

Lemma Processed_receiptsFollowFinalization connection tx w w' :
  Processed connection tx w w' ->
  Db.getTransaction (db w) (signature tx) = Some tx ->
  receiptsFollowFinalization w -> receiptsFollowFinalization w'.
Proof.
  intros HP Hget H.
  destruct HP as [|raw|raw Hc|Hp|Hc Hf|Hf|Hd].
  - exact H.
  - now apply receiptsFollowFinalization_broadcast.
  - apply receiptsFollowFinalization_marked; [discriminate|].
    now apply receiptsFollowFinalization_broadcast.
  - apply receiptsFollowFinalization_marked; [discriminate|exact H].
  - apply receiptsFollowFinalization_marked; [discriminate|exact H].
  - now apply receiptsFollowFinalization_finalized.
  - apply receiptsFollowFinalization_marked; [discriminate|exact H].
Qed.

Variable ledger : string -> Connection.

Lemma attempt_receiptsFollowFinalization tx w :
  Db.getTransaction (db w) (signature tx) <> None ->
  wellKeyed (db w) ->
  receiptsFollowFinalization w ->
  receiptsFollowFinalization (snd (attempt ledger tx w)).
Proof.
  intros Hst Hwk H. rewrite attempt_handles_live.
  destruct (Db.getTransaction (db w) (signature tx)) as [l|] eqn:Hget;
    [|congruence].
  assert (Hsig : signature l = signature tx)
    by (eapply wellKeyed_get_signature; eassumption).
  eapply Processed_receiptsFollowFinalization;
    [apply processTransaction_Processed| |exact H].
  now rewrite Hsig.
Qed.

Lemma stored_kept w w' (txs : list TransactionRecord) :
  keepsTransfers w w' ->
  (forall tx, In tx txs -> Db.getTransaction (db w) (signature tx) <> None) ->
  forall tx, In tx txs -> Db.getTransaction (db w') (signature tx) <> None.
Proof.
  intros Hk Hs tx Hin. specialize (Hs tx Hin).
  destruct (Db.getTransaction (db w) (signature tx)) as [l|] eqn:E;
    [|congruence].
  destruct (Hk _ _ E) as (l' & -> & _). discriminate.
Qed.

Lemma forEach_receiptsFollowFinalization txs : forall w,
  (forall tx, In tx txs -> Db.getTransaction (db w) (signature tx) <> None) ->
  wellKeyed (db w) ->
  receiptsFollowFinalization w ->
  receiptsFollowFinalization (snd (forEach txs (attempt ledger) w)).
Proof.
  induction txs as [|tx txs IH]; intros w Hs Hwk H; [exact H|].
  rewrite forEach_cons. apply IH.
  - apply stored_kept with (w := w); [apply attempt_keepsTransfers|].
    intros tx' Hin. apply Hs. now right.
  - now apply attempt_wellKeyed.
  - apply attempt_receiptsFollowFinalization; auto. apply Hs. now left.
Qed.

End ReceiptsUnderOverlap.

Section ReceiptsOfSchedules.
Context {platform : Platform}.
Variable keypair : Keypair.

Lemma step_receiptsFollowFinalization a w :
  wellKeyed (db w) ->
  receiptsFollowFinalization w ->
  receiptsFollowFinalization (step keypair a w).
Proof.
  intros Hwk H. destruct a as [pk nm|s h|ledger]; cbn [step].
  - exact H.
  - destruct (relayTransaction_returns keypair s h w) as (r & w' & E & HA).
    rewrite E. cbn [snd].
    pose proof (Admission_kept _ _ _ _ _ _ HA) as [_ Hkept].
    assert (Hval : forall t, receiptsFollowFinalization (validated w t)).
    { intros t.
      apply receiptsFollowFinalization_snoc
        with (w := w) (e := EvValidateTransaction t); try reflexivity; auto.
      intros id r0 Hget. exists r0.
      split; [exact Hget|apply sameTransfer_refl]. }
    destruct HA; auto.
    apply receiptsFollowFinalization_snoc
      with (w := validated w t) (e := EvAddTransaction record);
      try reflexivity; auto.
    + cbn [trace validated]. now rewrite <- app_assoc.
    + intros id r0 Hget. exists r0.
      split; [now apply Hkept|apply sameTransfer_refl].
  - rewrite processTransactions_forEach.
    apply forEach_receiptsFollowFinalization; auto.
    intros tx Hin. destruct (snapshot_spec _ Hwk) as [_ Hlive].
    destruct (Hlive tx Hin) as [Hget _]. congruence.
Qed.

Lemma move_receiptsFollowFinalization m s :
  wellKeyed (db (world s)) ->
  (forall tx, In tx (waiting s) ->
              Db.getTransaction (db (world s)) (signature tx) <> None) ->
  receiptsFollowFinalization (world s) ->
  (forall tx, In tx (waiting (move keypair m s)) ->
              Db.getTransaction (db (world (move keypair m s))) (signature tx)
              <> None)
  /\ receiptsFollowFinalization (world (move keypair m s)).
Proof.
  intros Hwk Hs H.
  destruct m as [a| |cycle connection]; cbn [move].
  - split; [|now apply step_receiptsFollowFinalization].
    apply stored_kept with (w := world s); [apply step_keepsTransfers|exact Hs].
  - split; [|exact H]. unfold waiting in *. cbn [world inflight].
    rewrite concat_app. cbn [concat]. rewrite app_nil_r.
    intros tx Hin. apply in_app_or in Hin. destruct Hin as [Hin|Hin]; auto.
    destruct (snapshot_spec _ Hwk) as [_ Hlive].
    destruct (Hlive tx Hin) as [Hget _]. congruence.
  - destruct (advance_cases cycle connection s)
      as [->|(tx & rest & Hnth & ->)]; [now split|].
    destruct (waiting_replaceAt _ _ _ _ Hnth) as (before & after & E1 & E2).
    unfold waiting in *. cbn [world inflight]. rewrite E1 in Hs. rewrite E2.
    split.
    + apply stored_kept with (w := world s); [apply attempt_keepsTransfers|].
      intros tx' Hin. apply Hs. apply in_app_or in Hin. apply in_or_app.
      destruct Hin as [Hin|Hin]; [now left|right; now right].
    + apply attempt_receiptsFollowFinalization; auto.
      apply Hs. apply in_or_app. right. now left.
Qed.

Lemma schedule_receiptsFollowFinalization ms : forall s,
  wellKeyed (db (world s)) ->
  (forall tx, In tx (waiting s) ->
              Db.getTransaction (db (world s)) (signature tx) <> None) ->
  receiptsFollowFinalization (world s) ->
  receiptsFollowFinalization (world (schedule keypair ms s)).
Proof.
  unfold schedule. induction ms as [|m ms IH]; intros s Hwk Hs H; cbn; auto.
  destruct (move_receiptsFollowFinalization m s Hwk Hs H) as [Hs' H'].
  apply IH; auto. now apply move_wellKeyed.
Qed.

(** X17.  Under every schedule, overlapping cycles included: receipts
    and writes of [FINALIZED] go together.  For every identifier as many
    receipts have been sent as [FINALIZED] has been written for it, and
    every receipt carries the state [FINALIZED] and the signature,
    sender, recipient and amount of a record of the store. *)
Theorem receipts_follow_finalization moves :
  let w := world (schedule keypair moves initialScheduler) in
  (forall id, occurrences (isReceiptFor id) (trace w)
              = occurrences (isFinalizedMarkFor id) (trace w))
  /\ forall r, In (EvSendReceipt r) (trace w) ->
       status r = FINALIZED
       /\ exists live, Db.getTransaction (db w) (signature r) = Some live
                       /\ sameTransfer r live.
Proof.
  cbv zeta.
  apply (schedule_receiptsFollowFinalization moves initialScheduler).
  - apply initial_wellKeyed.
  - intros tx [].
  - split; [reflexivity|]. intros r [].
Qed.

End ReceiptsOfSchedules.

(** ** The properties on the concrete platform *)

#[local] Existing Instance Demo.platform.

(** C1.  The accepted transfer is reported "confirmed" in one cycle and
    "processed" in the next: the record is [CONFIRMED] after the first and
    set back to [PROCESSED], a weaker state, by the second. *)
Theorem confirmed_record_set_back_to_processed :
  let confirmed :=
    run Demo.relayerKey
        (Demo.admission ++ [ActCycle (fun _ => Demo.reporting "confirmed")])
        initialWorld in
  statusOf confirmed "S1" = Some CONFIRMED
  /\ statusOf (snd (processTransactions (fun _ => Demo.reporting "processed")
                                         confirmed)) "S1"
     = Some PROCESSED
  /\ weaker PROCESSED CONFIRMED.
Proof.
  cbv zeta. split; [reflexivity|]. split; [reflexivity|]. cbn. lia.
Qed.

(** C3.  The transfer with one more writable account, which is neither the
    relayer nor the sender, passes the validator and is accepted. *)
Theorem unexpected_writable_account_accepted :
  In "Mallory" (writableAccounts Demo.extraWritable)
  /\ ~ In "Mallory" [kpPublicKey Demo.relayerKey; "Sender"]
  /\ validateTransaction Demo.relayerKey (db Demo.registered) Demo.extraWritable
     = Return (Valid "Sender" "Recipient" 10)
  /\ fst (relayTransaction Demo.relayerKey (Demo.wire x04) 1000 Demo.registered)
     = Return (relaySuccess "S1").
Proof.
  split; [cbn; tauto|]. split.
  - cbn. intros [H|[H|[]]]; discriminate.
  - split; reflexivity.
Qed.

(** C2, as the specification words it, fails: the second submission of
    the transfer enters the validator again. *)
Lemma readmission_validates_again :
  ~ resubmitsWithoutValidating Demo.relayerKey (Demo.wire x01) 1000
      Demo.registered.
Proof.
  intros H.
  pose (first := relayTransaction Demo.relayerKey (Demo.wire x01) 1000
                   Demo.registered).
  pose (second := relayTransaction Demo.relayerKey (Demo.wire x01) 1000
                    (snd first)).
  destruct (H (relaySuccess "S1") (snd first) (relaySuccess "S1") (snd second))
    as (_ & _ & Hcount); try reflexivity.
  vm_compute in Hcount. discriminate.
Qed.

(** C2: the amended statement on the transfer, accepted once, reported
    "processed" by a cycle and submitted again with another expiry
    height. *)
Lemma readmission_returns_same_id_witness :
  let first := relayTransaction Demo.relayerKey (Demo.wire x01) 1000
                 Demo.registered in
  let later := run Demo.relayerKey
                 [ActCycle (fun _ => Demo.reporting "processed")] (snd first) in
  first = (Return (relaySuccess "S1"), snd first)
  /\ success (relaySuccess "S1") = true
  /\ relayTransaction Demo.relayerKey (Demo.wire x01) 2000 later
     = (Return (relaySuccess "S1"), validated later Demo.transfer)
  /\ storedUnder (validated later Demo.transfer) "S1" = 1.
Proof.
  cbv zeta.
  assert (Hfirst : relayTransaction Demo.relayerKey (Demo.wire x01) 1000
                     Demo.registered
                   = (Return (relaySuccess "S1"),
                      snd (relayTransaction Demo.relayerKey (Demo.wire x01) 1000
                             Demo.registered))) by reflexivity.
  split; [exact Hfirst|]. split; [reflexivity|].
  destruct (readmission_returns_same_id Demo.relayerKey Demo.registration
              (Demo.wire x01) 1000 (relaySuccess "S1")
              (snd (relayTransaction Demo.relayerKey (Demo.wire x01) 1000
                      Demo.registered))
              [ActCycle (fun _ => Demo.reporting "processed")] 2000
              Hfirst eq_refl)
    as (t & id & Hd & Hr & Hrelay & _ & Hone).
  injection Hd as <-. injection Hr as <-.
  split; [exact Hrelay|exact Hone].
Defined.

(** C4 on the accepted transfer: the node does not know it, says its
    blockhash has expired and has finalized up to 999, below the expiry
    height 1000. *)
Lemma expired_below_height_left_unchanged_witness :
  let ledger := fun _ : string => Demo.expired 999 (Return None) in
  let after := snd (processTransactions ledger Demo.accepted) in
  In Demo.stored (Db.getNonTerminalTransactions (db Demo.accepted))
  /\ getEpochInfo (ledger "S1") = Return {| blockHeight := Some 999%Z |}
  /\ (finalizedHeight {| blockHeight := Some 999%Z |}
      < lastValidBlockHeight Demo.stored)%Z
  /\ unknownAndExpired (ledger "S1") Demo.stored = true
  /\ statusOf after "S1" <> Some FAILED
  /\ Db.getTransaction (db after) "S1" = Some Demo.stored.
Proof.
  cbv zeta.
  assert (Hin : In Demo.stored (Db.getNonTerminalTransactions (db Demo.accepted)))
    by (left; reflexivity).
  assert (Hinfo : getEpochInfo (Demo.expired 999 (Return None))
                  = Return {| blockHeight := Some 999%Z |}) by reflexivity.
  assert (Hlt : (finalizedHeight {| blockHeight := Some 999%Z |}
                 < lastValidBlockHeight Demo.stored)%Z) by (cbn; lia).
  assert (Hexp : unknownAndExpired (Demo.expired 999 (Return None)) Demo.stored
                 = true) by reflexivity.
  destruct (expired_below_height_left_unchanged Demo.relayerKey Demo.admission
              (fun _ => Demo.expired 999 (Return None)) Demo.stored
              {| blockHeight := Some 999%Z |} Hin Hinfo Hlt)
    as [Hnot Hsame].
  split; [exact Hin|]. split; [exact Hinfo|]. split; [exact Hlt|].
  split; [exact Hexp|]. split; [exact Hnot|]. exact (proj1 (Hsame Hexp)).
Defined.


(** C7 on the transfer with three instructions. *)
Lemma rejected_admission_stores_nothing_witness :
  let outcome := relayTransaction Demo.relayerKey (Demo.wire x03) 1000
                   Demo.registered in
  outcome = (Return (relayFailure "Expected 2 instructions, got 3"), snd outcome)
  /\ success (relayFailure "Expected 2 instructions, got 3") = false
  /\ db (snd outcome) = db Demo.registered.
Proof.
  cbv zeta.
  assert (Hout : relayTransaction Demo.relayerKey (Demo.wire x03) 1000
                   Demo.registered
                 = (Return (relayFailure "Expected 2 instructions, got 3"),
                    snd (relayTransaction Demo.relayerKey (Demo.wire x03) 1000
                           Demo.registered))) by reflexivity.
  split; [exact Hout|]. split; [reflexivity|].
  apply (proj2 (rejected_admission_stores_nothing Demo.relayerKey
                  (Demo.wire x03) 1000 Demo.registered)
               (relayFailure "Expected 2 instructions, got 3")
               _ Hout eq_refl).
Defined.

(** C8 on the transfer with three instructions. *)
Lemma wrong_instruction_count_rejected_witness :
  Transaction_from (base64_decode (Demo.wire x03))
  = Return Demo.threeInstructions
  /\ length (instructions Demo.threeInstructions) <> 2
  /\ fst (relayTransaction Demo.relayerKey (Demo.wire x03) 1000 Demo.registered)
     = Return (relayFailure "Expected 2 instructions, got 3").
Proof.
  assert (Hn : length (instructions Demo.threeInstructions) <> 2)
    by (cbn; lia).
  split; [reflexivity|]. split; [exact Hn|].
  assert (Hd : Transaction_from (base64_decode (Demo.wire x03))
               = Return Demo.threeInstructions) by reflexivity.
  rewrite (wrong_instruction_count_rejected Demo.relayerKey (Demo.wire x03)
             1000 Demo.registered Demo.threeInstructions Hd Hn).
  reflexivity.
Defined.

(** C9 on the transfer of another mint. *)
Lemma other_mint_rejected_witness :
  transferMint Demo.otherMintTransfer <> Some USDC_MINT
  /\ success (relayFailure "Transfer must be USDC token") = false
  /\ fst (relayTransaction Demo.relayerKey (Demo.wire x06) 1000 Demo.registered)
     = Return (relayFailure "Transfer must be USDC token")
  /\ db (snd (relayTransaction Demo.relayerKey (Demo.wire x06) 1000
                Demo.registered))
     = db Demo.registered.
Proof.
  assert (Hm : transferMint Demo.otherMintTransfer <> Some USDC_MINT)
    by (cbn; discriminate).
  assert (Hd : Transaction_from (base64_decode (Demo.wire x06))
               = Return Demo.otherMintTransfer) by reflexivity.
  assert (Hout : relayTransaction Demo.relayerKey (Demo.wire x06) 1000
                   Demo.registered
                 = (Return (relayFailure "Transfer must be USDC token"),
                    snd (relayTransaction Demo.relayerKey (Demo.wire x06) 1000
                           Demo.registered))) by reflexivity.
  split; [exact Hm|]. split; [reflexivity|]. split; [reflexivity|].
  apply (proj2 (other_mint_rejected Demo.relayerKey Demo.otherMintTransfer
                  (or_introl Hm))
               (Demo.wire x06) 1000%Z Demo.registered
               (relayFailure "Transfer must be USDC token") _ Hd Hout).
Defined.

(** C10 on the transfer and its sender. *)
Lemma compliance_never_refuses_witness :
  Db.isCompliant (db Demo.registered) "Sender" = true
  /\ validateTransaction Demo.relayerKey (db Demo.registered) Demo.transfer
     <> Return (Invalid "Sender is not compliant")
  /\ validateTransaction Demo.relayerKey (db Demo.registered) Demo.transfer
     <> Return (Invalid "Recipient is not compliant").
Proof.
  destruct (compliance_never_refuses Demo.relayerKey) as [Htrue Hnever].
  split; [apply Htrue|]. apply Hnever.
Defined.

(** X4 on the database that holds the accepted transfer. *)
Lemma getNonTerminalTransactions_exact_witness :
  wellKeyed (db Demo.accepted)
  /\ NoDup (map signature (Db.getNonTerminalTransactions (db Demo.accepted)))
  /\ (In Demo.stored (Db.getNonTerminalTransactions (db Demo.accepted))
      <-> Db.getTransaction (db Demo.accepted) (signature Demo.stored)
          = Some Demo.stored
          /\ status Demo.stored <> FINALIZED /\ status Demo.stored <> FAILED).
Proof.
  assert (Hwk : wellKeyed (db Demo.accepted)).
  { split.
    - cbn. repeat constructor. intros [].
    - intros k r [Heq|[]]. now inversion Heq. }
  split; [exact Hwk|].
  destruct (getNonTerminalTransactions_exact (db Demo.accepted) Hwk)
    as [Hnd Hiff].
  split; [exact Hnd|apply Hiff].
Defined.

(** X5 with one timer of another component active: two calls of [start],
    a [stop] and a [start] again. *)
Lemma start_stop_hold_one_timer_witness :
  let ts := {| active := [(0, 5000%Z)]; nextTimer := 1 |} in
  let s := timerCalls [CallStart 1000; CallStart 2000; CallStop; CallStart 500]
                      (newWorkflowProcessor, ts) in
  timersFresh ts
  /\ running (fst s) = true
  /\ length (heldTimers s) = 1
  /\ length (active (snd s)) = 2
  /\ In (0, 5000%Z) (active (snd s)).
Proof.
  cbv zeta.
  assert (Hfresh : timersFresh {| active := [(0, 5000%Z)]; nextTimer := 1 |}).
  { intros t [<-|[]]. cbn. lia. }
  split; [exact Hfresh|].
  destruct (start_stop_hold_one_timer
              [CallStart 1000; CallStart 2000; CallStop; CallStart 500]
              {| active := [(0, 5000%Z)]; nextTimer := 1 |} Hfresh)
    as (_ & Hheld & Hlen & Hin).
  split; [reflexivity|]. split; [exact Hheld|]. split; [exact Hlen|].
  apply Hin. now left.
Defined.

(** X6 on the transfer and the registered users. *)
Lemma accepted_transaction_checked_witness :
  validateTransaction Demo.relayerKey (db Demo.registered) Demo.transfer
  = Return (Valid "Sender" "Recipient" 10)
  /\ length (instructions Demo.transfer) = 2
  /\ feePayer Demo.transfer = Some "Relayer"
  /\ accountAt Demo.transfer 1 3 = Some "Sender".
Proof.
  assert (Hv : validateTransaction Demo.relayerKey (db Demo.registered)
                 Demo.transfer
               = Return (Valid "Sender" "Recipient" 10)) by reflexivity.
  split; [exact Hv|].
  destruct (accepted_transaction_checked Demo.relayerKey _ _ _ _ _ Hv)
    as (Hlen & Hfee & _ & _ & _ & _ & _ & Hauth & _).
  split; [exact Hlen|]. split; [exact Hfee|exact Hauth].
Defined.

(** X7 on a transfer of 10 units from the sender to the recipient. *)
Lemma built_transfer_accepted_witness :
  validateTransaction Demo.relayerKey (db Demo.registered)
    (builtTransfer "Relayer" "Sender" "Recipient"
       (Demo.ata USDC_MINT "Sender") (Demo.ata USDC_MINT "Recipient")
       [x0a; x00; x00; x00; x00; x00; x00; x00] x06 [x53; x31] "blockhash-1")
  = Return (Valid "Sender" "Recipient" 10).
Proof.
  assert (Hs : getAssociatedTokenAddressSync USDC_MINT "Sender"
               = Return (Demo.ata USDC_MINT "Sender")) by reflexivity.
  assert (Hr : getAssociatedTokenAddressSync USDC_MINT "Recipient"
               = Return (Demo.ata USDC_MINT "Recipient")) by reflexivity.
  assert (Hrs : Db.isUserRegistered (db Demo.registered) "Sender" = true)
    by reflexivity.
  assert (Hrr : Db.isUserRegistered (db Demo.registered) "Recipient" = true)
    by reflexivity.
  assert (Hne : "Sender" <> kpPublicKey Demo.relayerKey) by discriminate.
  assert (Hlen : length [x0a; x00; x00; x00; x00; x00; x00; x00] = 8)
    by reflexivity.
  exact (built_transfer_accepted Demo.relayerKey (db Demo.registered)
           "Sender" "Recipient" _ _ _ x06 [x53; x31] "blockhash-1"
           Hs Hr Hrs Hrr Hne Hlen).
Defined.

(** X9 on the accepted transfer, after a cycle in which the node reports
    it confirmed. *)
Lemma stored_transfer_never_rewritten_witness :
  Db.getTransaction (db Demo.accepted) "S1" = Some Demo.stored
  /\ exists r',
       Db.getTransaction
         (db (run Demo.relayerKey
                  [ActCycle (fun _ => Demo.reporting "confirmed")]
                  Demo.accepted)) "S1"
       = Some r'
       /\ sameTransfer Demo.stored r'.
Proof.
  assert (Hget : Db.getTransaction (db Demo.accepted) "S1" = Some Demo.stored)
    by reflexivity.
  split; [exact Hget|].
  exact (stored_transfer_never_rewritten Demo.relayerKey
           [ActCycle (fun _ => Demo.reporting "confirmed")]
           Demo.accepted "S1" Demo.stored Hget).
Defined.

(** X13 on the accepted transfer and a node that cannot be reached. *)
Lemma failed_processing_changes_nothing_witness :
  fst (processTransaction Scenario.unreachable Demo.stored Demo.accepted)
  = Throw "fetch failed"
  /\ snd (processTransaction Scenario.unreachable Demo.stored Demo.accepted)
     = Demo.accepted.
Proof.
  assert (Hthrow : fst (processTransaction Scenario.unreachable Demo.stored
                          Demo.accepted)
                   = Throw "fetch failed") by reflexivity.
  split; [exact Hthrow|].
  exact (failed_processing_changes_nothing _ _ _ _ Hthrow).
Defined.

(** X14 on the accepted transfer and a node that takes the broadcast. *)
Lemma broadcast_submits_created_record_witness :
  let node := Scenario.unknownValid (Return "sent") in
  processTransaction node Demo.stored Demo.accepted
  = (Return tt, marked "S1" SUBMITTED (broadcast [x02] Demo.accepted))
  /\ statusOf (snd (processTransaction node Demo.stored Demo.accepted)) "S1"
     = Some SUBMITTED.
Proof.
  cbv zeta.
  assert (Hd : Transaction_from (base64_decode (serializedTransaction Demo.stored))
               = Return (Demo.cosigned Demo.transfer)) by reflexivity.
  assert (Hs : Transaction_signature (Demo.cosigned Demo.transfer)
               = Some [x52; x21]) by reflexivity.
  assert (Hq : getSignatureStatuses (Scenario.unknownValid (Return "sent"))
                 (bs58_encode [x52; x21]) false
               = Return None) by reflexivity.
  assert (Hv : isBlockhashValid (Scenario.unknownValid (Return "sent"))
                 (recentBlockhash (Demo.cosigned Demo.transfer))
               = Return true) by reflexivity.
  assert (Hser : Transaction_serialize (Demo.cosigned Demo.transfer)
                 = Return [x02]) by reflexivity.
  split; [|reflexivity].
  exact (broadcast_submits_created_record
           (Scenario.unknownValid (Return "sent")) Demo.stored
           _ _ _ Demo.accepted Hd Hs Hq Hv Hser).
Defined.


(** X18 on the accepted transfer, two cycles later. *)
Lemma accepted_id_keeps_a_status_witness :
  let first := relayTransaction Demo.relayerKey (Demo.wire x01) 1000
                 Demo.registered in
  let later := run Demo.relayerKey
                 [ActCycle (fun _ => Scenario.unknownValid (Return "sent"));
                  ActCycle (fun _ => Demo.reporting "confirmed")]
                 (snd first) in
  first = (Return (relaySuccess "S1"), snd first)
  /\ transactionId (relaySuccess "S1") = Some "S1"
  /\ exists st, getTransactionStatus "S1" later = (Return (Some st, None), later).
Proof.
  cbv zeta.
  assert (Hfirst : relayTransaction Demo.relayerKey (Demo.wire x01) 1000
                     Demo.registered
                   = (Return (relaySuccess "S1"),
                      snd (relayTransaction Demo.relayerKey (Demo.wire x01) 1000
                             Demo.registered))) by reflexivity.
  assert (Hid : transactionId (relaySuccess "S1") = Some "S1") by reflexivity.
  split; [exact Hfirst|]. split; [exact Hid|].
  exact (accepted_id_keeps_a_status Demo.relayerKey _ _ _ _ _
           [ActCycle (fun _ => Scenario.unknownValid (Return "sent"));
            ActCycle (fun _ => Demo.reporting "confirmed")]
           "S1" Hfirst Hid).
Defined.

(** X22 on a relayer whose record is accepted at the first two queries
    and finalized at the third. *)
Lemma polling_stops_at_first_settled_status_witness :
  let finalized := run Demo.relayerKey
                     [ActCycle (fun _ => Demo.reporting "finalized")]
                     Demo.accepted in
  let relayerAt := fun k => if Nat.ltb k 3 then Demo.accepted else finalized in
  pollTransactionStatus relayerAt "S1" = Some (PollSucceeded FINALIZED, 3)
  /\ statusOf (relayerAt 3) "S1" = Some FINALIZED
  /\ (forall k, 1 <= k < 3 ->
        exists st, statusOf (relayerAt k) "S1" = Some st /\ pending st = true).
Proof.
  cbv zeta.
  assert (Hpoll : pollTransactionStatus
                    (fun k => if Nat.ltb k 3 then Demo.accepted
                              else run Demo.relayerKey
                                     [ActCycle (fun _ => Demo.reporting "finalized")]
                                     Demo.accepted) "S1"
                  = Some (PollSucceeded FINALIZED, 3)) by reflexivity.
  split; [exact Hpoll|].
  destruct (polling_stops_at_first_settled_status _ _ _ _ Hpoll)
    as [Hbefore [Hlast _]].
  split; [exact Hlast|exact Hbefore].
Defined.

(** X23 on the accepted transfer, polled while the workflow runs one
    cycle between the queries. *)
Lemma polling_an_accepted_id_finds_it_witness :
  let first := relayTransaction Demo.relayerKey (Demo.wire x01) 1000
                 Demo.registered in
  let later := fun k : nat =>
                 repeat (ActCycle (fun _ => Scenario.unknownValid (Return "sent")))
                        k in
  first = (Return (relaySuccess "S1"), snd first)
  /\ pollTransactionStatus (fun k => run Demo.relayerKey (later k) (snd first))
                           "S1"
     <> Some (PollNotFound, 1).
Proof.
  cbv zeta.
  assert (Hfirst : relayTransaction Demo.relayerKey (Demo.wire x01) 1000
                     Demo.registered
                   = (Return (relaySuccess "S1"),
                      snd (relayTransaction Demo.relayerKey (Demo.wire x01) 1000
                             Demo.registered))) by reflexivity.
  assert (Hid : transactionId (relaySuccess "S1") = Some "S1") by reflexivity.
  split; [exact Hfirst|].
  exact (polling_an_accepted_id_finds_it Demo.relayerKey _ _ _ _ _ "S1"
           (fun k => repeat (ActCycle (fun _ => Scenario.unknownValid (Return "sent"))) k)
           Hfirst Hid 1).
Defined.

(** C6.  Two cycles overlap on the accepted transfer.  The first takes
    its snapshot and asks the node, whose answer "processed" is late; the
    second takes its snapshot, is told "finalized", writes [FINALIZED]
    and sends the receipt.  Then the late answer arrives: the first cycle
    sets the [FINALIZED] record to [PROCESSED].  The next cycle finds it
    again, is told "finalized" and sends a second receipt. *)
Theorem receipt_sent_twice_by_overlapping_cycles :
  let overlap :=
    (map MvAct Demo.admission
     ++ [MvTick; MvTick; MvAdvance 1 (Demo.reporting "finalized")])%list in
  let late := [MvAdvance 0 (Demo.reporting "processed")] in
  let next := [MvTick; MvAdvance 2 (Demo.reporting "finalized")] in
  let s1 := schedule Demo.relayerKey overlap initialScheduler in
  let s2 := schedule Demo.relayerKey late s1 in
  let s3 := schedule Demo.relayerKey next s2 in
  (statusOf (world s1) "S1" = Some FINALIZED
   /\ occurrences (isReceiptFor "S1") (trace (world s1)) = 1)
  /\ (statusOf (world s2) "S1" = Some PROCESSED
      /\ occurrences (isReceiptFor "S1") (trace (world s2)) = 1)
  /\ (statusOf (world s3) "S1" = Some FINALIZED
      /\ occurrences (isReceiptFor "S1") (trace (world s3)) = 2
      /\ waiting s3 = []).
Proof.
  cbv zeta. repeat split; reflexivity.
Qed.

(** The mark [FAILED] under overlapping cycles: two cycles take their
    snapshots of the accepted transfer, and each is told that the
    transaction is unknown and expired at height 1000.  Each writes
    [FAILED]. *)
Lemma failed_marked_twice_by_overlapping_cycles :
  let node := Demo.expired 1000 (Return None) in
  let s := schedule Demo.relayerKey
             (map MvAct Demo.admission
              ++ [MvTick; MvTick; MvAdvance 0 node; MvAdvance 1 node])
             initialScheduler in
  statusOf (world s) "S1" = Some FAILED
  /\ occurrences (isFailedMarkFor "S1") (trace (world s)) = 2.
Proof.
  cbv zeta. split; reflexivity.
Qed.


(** X10 on the accepted transfer, finalized by a cycle that has finished:
    two overlapping cycles that start afterwards and are told "processed"
    and "expired" leave it alone. *)
Lemma terminal_record_changes_only_through_earlier_snapshot_witness :
  let finalized :=
    {| signature := "S1";
       serializedTransaction := Demo.wire x02;
       sender := "Sender";
       recipient := "Recipient";
       amount := 10;
       lastValidBlockHeight := 1000%Z;
       status := FINALIZED;
       createdAt := 1000%Z;
       updatedAt := 1002%Z |} in
  let moves := (map MvAct Demo.admission
                ++ [MvTick; MvAdvance 0 (Demo.reporting "finalized")])%list in
  let more := [MvTick; MvTick;
               MvAdvance 2 (Demo.reporting "processed");
               MvAdvance 1 (Demo.expired 2000 (Return None));
               MvAct (ActCycle (fun _ => Demo.reporting "processed"))] in
  let s := schedule Demo.relayerKey moves initialScheduler in
  Db.getTransaction (db (world s)) "S1" = Some finalized
  /\ ~ In "S1" (map signature (waiting s))
  /\ Db.getTransaction (db (world (schedule Demo.relayerKey more s))) "S1"
     = Some finalized.
Proof.
  cbv zeta.
  assert (Hget : Db.getTransaction
                   (db (world (schedule Demo.relayerKey
                                 (map MvAct Demo.admission
                                  ++ [MvTick;
                                      MvAdvance 0 (Demo.reporting "finalized")])
                                 initialScheduler))) "S1"
                 = Some {| signature := "S1";
                           serializedTransaction := Demo.wire x02;
                           sender := "Sender";
                           recipient := "Recipient";
                           amount := 10;
                           lastValidBlockHeight := 1000%Z;
                           status := FINALIZED;
                           createdAt := 1000%Z;
                           updatedAt := 1002%Z |}) by reflexivity.
  assert (Hnot : ~ In "S1"
                     (map signature
                        (waiting (schedule Demo.relayerKey
                                    (map MvAct Demo.admission
                                     ++ [MvTick;
                                         MvAdvance 0
                                           (Demo.reporting "finalized")])
                                    initialScheduler)))) by (intros []).
  split; [exact Hget|]. split; [exact Hnot|].
  exact (proj1 (terminal_record_changes_only_through_earlier_snapshot
                  Demo.relayerKey _
                  [MvTick; MvTick;
                   MvAdvance 2 (Demo.reporting "processed");
                   MvAdvance 1 (Demo.expired 2000 (Return None));
                   MvAct (ActCycle (fun _ => Demo.reporting "processed"))]
                  "S1" _ Hget (or_introl eq_refl) Hnot)).
Defined.

(** X16 on the accepted transfer, finalized, and a late answer
    "processed". *)
Lemma handling_moves_status_witness :
  let finalized :=
    {| signature := "S1";
       serializedTransaction := Demo.wire x02;
       sender := "Sender";
       recipient := "Recipient";
       amount := 10;
       lastValidBlockHeight := 1000%Z;
       status := FINALIZED;
       createdAt := 1000%Z;
       updatedAt := 1002%Z |} in
  let w := run Demo.relayerKey
               (Demo.admission
                ++ [ActCycle (fun _ => Demo.reporting "finalized")])
               initialWorld in
  let after :=
    statusOf (snd (processTransaction (Demo.reporting "processed") finalized w))
             "S1" in
  Db.getTransaction (db w) "S1" = Some finalized
  /\ after = Some PROCESSED
  /\ (after = Some FINALIZED
      \/ (exists st, after = Some st /\ weaker FINALIZED st)
      \/ (after = Some PROCESSED
          /\ (FINALIZED = CONFIRMED \/ FINALIZED = FINALIZED))
      \/ (FINALIZED = FAILED
          /\ (after = Some PROCESSED \/ after = Some CONFIRMED
              \/ after = Some FINALIZED))
      \/ (after = Some FAILED
          /\ failureDetermined (Demo.reporting "processed") finalized = true)).
Proof.
  cbv zeta.
  assert (Hget : Db.getTransaction
                   (db (run Demo.relayerKey
                            (Demo.admission
                             ++ [ActCycle (fun _ => Demo.reporting "finalized")])
                            initialWorld))
                   (signature
                      {| signature := "S1";
                         serializedTransaction := Demo.wire x02;
                         sender := "Sender";
                         recipient := "Recipient";
                         amount := 10;
                         lastValidBlockHeight := 1000%Z;
                         status := FINALIZED;
                         createdAt := 1000%Z;
                         updatedAt := 1002%Z |})
                 = Some {| signature := "S1";
                           serializedTransaction := Demo.wire x02;
                           sender := "Sender";
                           recipient := "Recipient";
                           amount := 10;
                           lastValidBlockHeight := 1000%Z;
                           status := FINALIZED;
                           createdAt := 1000%Z;
                           updatedAt := 1002%Z |}) by reflexivity.
  split; [exact Hget|]. split; [reflexivity|].
  exact (handling_moves_status (Demo.reporting "processed") _ _ Hget).
Defined.
